(** * ApiQuick: the request dispatcher of lib/ApiQuick.js

    A shallow embedding of the dispatcher: route registration
    ([addEndpoints]), bounded-depth route resolution
    ([_checkParamsSupplied]), the authorization decision
    ([_checkAuthDetails]), the response writer ([_getHeaders],
    [_writeResponse]) and the handler invocation of [_process].

    JavaScript strings are modelled as [string] (one character per code
    unit, code units up to U+00FF), integers as [Z], the route table (a plain
    object used as a map from path to handler) as a [gmap string fn_ref], and
    function objects as references into a store, because the code attaches
    the [auth] property to the function object itself.  A computation takes
    the events that happened before it and gives the events it adds and the
    way it ends: [res.writeHead] throws on a response whose head is out and
    on a status code or message that Node refuses, and a resolution under
    [maxDepth: Infinity] may not return. *)

From stdpp Require Import gmap strings list pretty.
From Stdlib Require Import ZArith Ascii Lia.

Open Scope Z_scope.
Set Warnings "-register-all".

(** ** JavaScript string primitives used by the resolver *)

Definition js_length (s : string) : Z := Z.of_nat (String.length s).

(** [s[i]]: the character at index [i], [None] standing for [undefined]. *)
Definition char_at (s : string) (i : Z) : option ascii :=
  if i <? 0 then None else String.get (Z.to_nat i) s.

(** [s.lastIndexOf(c)] for a one-character needle: the greatest index holding
    [c], or [-1]. *)
Fixpoint lastIndexOf (s : string) (c : ascii) : Z :=
  match s with
  | EmptyString => -1
  | String x r =>
      let i := lastIndexOf r c in
      if 0 <=? i then i + 1
      else if Ascii.eqb x c then 0 else -1
  end.

(** [s.substring(a, b)]: both indices are clamped to [0 .. s.length] and
    swapped when [a > b]. *)
Definition clamp (s : string) (i : Z) : Z := Z.max 0 (Z.min i (js_length s)).

Definition substring (s : string) (a b : Z) : string :=
  let a' := clamp s a in
  let b' := clamp s b in
  let lo := Z.min a' b' in
  let hi := Z.max a' b' in
  String.substring (Z.to_nat lo) (Z.to_nat (hi - lo)) s.

Definition slash : ascii := "/"%char.

(** ** JavaScript values *)

Definition fn_ref := nat.
Definition sink := nat.

Inductive value :=
| VUndef
| VNull
| VBool (b : bool)
| VNum (n : Z)
| VStr (s : string)
| VObj (props : list (string * value))
| VError (name message : string) (stack : value)
| VFun (f : fn_ref)
| VRes (r : sink).

(** Truthiness, as tested by [if (v)], [!v], [a || b] and [a && b]. *)
Definition truthy (v : value) : bool :=
  match v with
  | VUndef | VNull => false
  | VBool b => b
  | VNum n => negb (n =? 0)
  | VStr s => negb (String.eqb s "")
  | VObj _ | VError _ _ _ | VFun _ | VRes _ => true
  end.

(** [a || b] *)
Definition js_or (a b : value) : value := if truthy a then a else b.

Fixpoint assoc (props : list (string * value)) (k : string) : value :=
  match props with
  | [] => VUndef
  | (k', v) :: rest => if String.eqb k' k then v else assoc rest k
  end.

(** [v.k] on a value that is neither [undefined] nor [null] (the callers
    below establish that before reading).  Primitives, functions and
    response objects carry none of the properties this code reads. *)
Definition get (v : value) (k : string) : value :=
  match v with
  | VObj props => assoc props k
  | VError name message stack =>
      if String.eqb k "name" then VStr name
      else if String.eqb k "message" then VStr message
      else if String.eqb k "stack" then stack
      else VUndef
  | _ => VUndef
  end.

Fixpoint assoc_set (props : list (string * value)) (k : string) (x : value)
  : list (string * value) :=
  match props with
  | [] => [(k, x)]
  | (k', v) :: rest =>
      if String.eqb k' k then (k, x) :: rest else (k', v) :: assoc_set rest k x
  end.

(** [v.k = x] in sloppy mode: assignment to a property of a primitive is
    silently dropped. *)
Definition set (v : value) (k : string) (x : value) : value :=
  match v with
  | VObj props => VObj (assoc_set props k x)
  | _ => v
  end.

(** [a && b] *)
Definition js_and (a b : value) : value := if truthy a then b else a.

Definition is_undef (v : value) : bool :=
  match v with VUndef => true | _ => false end.

(** ** Requests, handlers and function objects *)

(** The request object, with the parts the dispatcher reads or assigns:
    [req.u.pathname] and [req.u.query] as produced by [url.parse] (for the
    request targets an HTTP server accepts the pathname starts with a slash),
    the user and password that [Auth.decodeAuthDetails] extracts from the
    authorization header, the client address, and the properties [body],
    [args] and [ip] that the dispatcher sets. *)
Record request := {
  req_method : string;
  req_pathname : string;
  req_query : value;
  req_body : value;
  req_user : value;
  req_pass : value;
  req_remoteAddress : value;
  req_args : list string;
  req_ip : value
}.

(** What a handler receives as its first argument. *)
Inductive request_data :=
| FullRequest (req : request)
| RequestView (method : string) (args_ : list string) (body : value) (ip : value).

(** The observable behaviour of a user function that is handed a callback:
    it invokes the callback synchronously any number of times (a fault of the
    callback propagates through it: the function does not catch it) and then
    returns or throws.  A function that keeps the callback and fires it from
    a later tick simply returns here; the later firing is an evaluation of
    the callback on its own. *)
Inductive script (A : Type) :=
| Return (v : value)
| Throw (e : value)
| Callback (a : A) (k : script A).

Arguments Return {A} v.
Arguments Throw {A} e.
Arguments Callback {A} a k.

(** A function object: its declared parameter count, the [auth] property the
    dispatcher attaches to it, its source text ([String(f)]), and what it does
    when called as a handler [(data, cb)] or as an auth function
    [(user, pass, cb)]. *)
Record fn_obj := {
  fn_length : nat;
  fn_auth : value;
  fn_source : string;
  fn_handler : request_data -> script (value * value * value);
  fn_authfn : value -> value -> script value
}.

Definition with_auth (o : fn_obj) (a : value) : fn_obj :=
  {| fn_length := fn_length o; fn_auth := a; fn_source := fn_source o;
     fn_handler := fn_handler o; fn_authfn := fn_authfn o |}.

(** [this.maxDepth]: an integer, or [Infinity] for an unbounded depth. *)
Inductive depth_setting :=
| Finite (n : Z)
| Infinity.

(** [depth <= this.maxDepth] and [depth > this.maxDepth] *)
Definition depth_le (depth : Z) (m : depth_setting) : bool :=
  match m with
  | Finite n => depth <=? n
  | Infinity => true
  end.

Definition depth_gt (depth : Z) (m : depth_setting) : bool :=
  match m with
  | Finite n => depth >? n
  | Infinity => false
  end.

(** The server object together with the store of function objects.
    [routes] holds the own properties of [this.routes]; the names a plain
    object inherits do not start with a slash, whereas every key written by
    [addEndpoints] and every path that [url.parse] hands over does.
    [debug], [prettyJson] and [fullRequest] are the truthiness of the
    settings, and [error_listener] tells whether the logger has a listener
    for ['error'] events. *)
Record state := {
  routes : gmap string fn_ref;
  checkAuth : value;
  maxDepth : depth_setting;
  debug : bool;
  prettyJson : bool;
  fullRequest : bool;
  error_listener : bool;
  functions : gmap fn_ref fn_obj
}.

Definition with_routes (st : state) (r : gmap string fn_ref) : state :=
  {| routes := r; checkAuth := checkAuth st; maxDepth := maxDepth st;
     debug := debug st; prettyJson := prettyJson st;
     fullRequest := fullRequest st; error_listener := error_listener st;
     functions := functions st |}.

Definition with_functions (st : state) (f : gmap fn_ref fn_obj) : state :=
  {| routes := routes st; checkAuth := checkAuth st; maxDepth := maxDepth st;
     debug := debug st; prettyJson := prettyJson st;
     fullRequest := fullRequest st; error_listener := error_listener st;
     functions := f |}.

Definition with_checkAuth (st : state) (f : value) : state :=
  {| routes := routes st; checkAuth := f; maxDepth := maxDepth st;
     debug := debug st; prettyJson := prettyJson st;
     fullRequest := fullRequest st; error_listener := error_listener st;
     functions := functions st |}.

(** A reference that the store does not hold denotes a function object with
    no properties set. *)
Definition blank_fn : fn_obj :=
  {| fn_length := 0; fn_auth := VUndef; fn_source := "";
     fn_handler := fun _ => Return VUndef;
     fn_authfn := fun _ _ => Return VUndef |}.

Definition fn_of (st : state) (f : fn_ref) : fn_obj :=
  default blank_fn (functions st !! f).

(** [auth(f)]: sets the global authentication function. *)
Definition auth (f : value) (st : state) : state := with_checkAuth st f.

(** [f.auth = a] *)
Definition set_auth (f : fn_ref) (a : value) (st : state) : state :=
  with_functions st (alter (fun o => with_auth o a) f (functions st)).

(** ** Registration: [addEndpoints] *)

(** The nested registration dict, in [for .. in] enumeration order. *)
Inductive endpoints :=
| EFunction (f : fn_ref)
| EObject (entries : list (string * endpoints))
| EOther.

(** [stack.join('/')] *)
Fixpoint join (sep : string) (l : list string) : string :=
  match l with
  | [] => ""
  | [a] => a
  | a :: rest => a +:+ sep +:+ join sep rest
  end.

Definition route_key (stack : list string) : string := "/" +:+ join "/" stack.

(** The body of the [typeof d[k] == 'function'] branch. *)
Definition register (extra : value) (stack : list string) (f : fn_ref)
    (st : state) : state :=
  let st := if truthy (js_and extra (get extra "auth"))
            then set_auth f (get extra "auth") st else st in
  with_routes st (<[ route_key stack := f ]> (routes st)).

(** The inner function [_r]; [stack] is the array at entry, [k] is pushed for
    the duration of one iteration and popped after it.  [each] is the
    [for (var k in d)] loop over the entries of [d]. *)
Fixpoint _r (extra : value) (stack : list string) (d : endpoints)
    (st : state) {struct d} : state :=
  match d with
  | EObject entries =>
      (fix each (es : list (string * endpoints)) (st : state) : state :=
         match es with
         | [] => st
         | (k, dk) :: rest =>
             let st :=
               match dk with
               | EFunction f => register extra (stack ++ [k]) f st
               | EObject _ => _r extra (stack ++ [k]) dk st
               | EOther => st
               end in
             each rest st
         end) entries st
  | EFunction _ | EOther => st
  end.

Definition addEndpoints (route : list (string * endpoints)) (extra : value)
    (st : state) : state :=
  _r extra [] (EObject route) st.

(** [addPackage(name, p, extra)] *)
Definition addPackage (name : string) (p : endpoints) (extra : value)
    (st : state) : state :=
  addEndpoints [(name, p)] extra st.
(** ** Route resolution: [_checkParamsSupplied] *)

(** What [_checkParamsSupplied] returns: [returnDict]. *)
Record returnDict := {
  rd_ok : bool;
  rd_code : Z;
  rd_error : option string;
  rd_handler : option fn_ref;
  rd_args : option (list string)
}.

(** [returnDict.handler.auth = returnDict.handler && returnDict.handler.auth] *)
Definition touch_auth (h : fn_ref) (st : state) : state :=
  set_auth h (js_and (VFun h) (fn_auth (fn_of st h))) st.

(** The [while] loop of [_checkParamsSupplied], one iteration per unit of
    fuel.  [None] means the fuel ran out before the loop ended. *)
Fixpoint resolve_loop (fuel : nat) (st : state) (rd : returnDict)
    (endpoint : string) (args_ : list string) (depth : Z)
  : option (returnDict * state) :=
  match fuel with
  | O => None
  | S fuel' =>
      if negb (rd_ok rd) && depth_le depth (maxDepth st) then
        match routes st !! endpoint with
        | Some h =>
            resolve_loop fuel' (touch_auth h st)
              {| rd_ok := true; rd_code := rd_code rd; rd_error := None;
                 rd_handler := Some h; rd_args := Some args_ |}
              endpoint args_ depth
        | None =>
            let depth := depth + 1 in
            if depth_gt depth (maxDepth st) then Some (rd, st)
            else
              let endIndex := lastIndexOf endpoint slash in
              if negb (endIndex =? 0) then
                resolve_loop fuel' st rd
                  (substring endpoint 0 (lastIndexOf endpoint slash))
                  (substring endpoint (endIndex + 1) (js_length endpoint)
                     :: args_)
                  depth
              else Some (rd, st)
        end
      else Some (rd, st)
  end.

(** The removal of one trailing slash at the head of the function. *)
Definition normalize (pathname : string) : string :=
  if bool_decide (char_at pathname (js_length pathname - 1) = Some slash)
  then substring pathname 0 (js_length pathname - 1)
  else pathname.

(** The fuel handed to the loop.  Under a finite depth the loop runs at most
    [maxDepth + 2] times; under [Infinity] every iteration but the last two
    shortens a non-empty endpoint, and an endpoint that has become empty
    stays empty, so a loop that has not ended after [length + 2] iterations
    never ends (see [resolve_loop_fuel] and [resolve_loop_never]). *)
Definition resolve_fuel (st : state) (endpoint : string) : nat :=
  match maxDepth st with
  | Finite n => Z.to_nat n + 2
  | Infinity => String.length endpoint + 2
  end.

(** [None] stands for a call that does not return. *)
Definition _checkParamsSupplied (st : state) (req : request)
  : option (returnDict * state) :=
  let endpoint := normalize (req_pathname req) in
  let rd := {| rd_ok := false; rd_code := 404;
               rd_error := Some ("No endpoint " +:+ endpoint);
               rd_handler := None; rd_args := None |} in
  resolve_loop (resolve_fuel st endpoint) st rd endpoint [] 0.

(** ** The runtime *)

(** The characters Node accepts in a status message: tab, the printable
    ASCII characters and the code units from U+0080 to U+00FF.  (Node refuses
    every code unit above U+00FF as well; the strings here hold none.) *)
Definition valid_status_char (c : ascii) : bool :=
  let n := N_of_ascii c in
  ((n =? 9) || ((32 <=? n) && (n <=? 126)) || (128 <=? n))%N.

Fixpoint valid_status_text (s : string) : bool :=
  match s with
  | EmptyString => true
  | String c r => valid_status_char c && valid_status_text r
  end.

(** What the code takes from the JavaScript engine and from Node:
    - the conversion of a string to a number ([None] for [NaN] and for
      numbers that are not integers), used by [==] against a number; the
      empty string converts to [0];
    - the stack text of an error that the engine throws, by name and
      message;
    - the check that [res.writeHead] makes on the status code and the status
      message before it sends anything: [None] when it accepts them, else the
      exception it throws.  For an integer code and a string message it
      accepts exactly the codes from 100 to 999 with a message of valid
      characters;
    - the exceptions of [res.writeHead] and [res.removeHeader] on a response
      whose head is already out. *)
Class Runtime := {
  StringToNumber : string -> option Z;
  StringToNumber_empty : StringToNumber "" = Some 0;
  engine_stack : string -> string -> string;
  head_check : value -> value -> option value;
  head_check_accepts :
    forall n s, 100 <= n <= 999 -> valid_status_text s = true ->
                head_check (VNum n) (VStr s) = None;
  head_check_text :
    forall n s, valid_status_text s = false ->
                head_check (VNum n) (VStr s) <> None;
  head_check_code :
    forall n s, -2147483648 <= n < 100 \/ 999 < n <= 2147483647 ->
                head_check (VNum n) (VStr s) <> None;
  headers_sent_error : value;
  headers_locked_error : value
}.

(** ** Effects: emitted events and thrown exceptions *)

(** The text passed to [res.end]: [JSON.stringify(data)] or
    [JSON.stringify(data, null, indent)], kept as the call itself. *)
Inductive json_text :=
| JSON_stringify (data : value) (indent : option nat).

(** [EEmit] is a [logger.emit] that went through, [EWriteHead] a call
    [res.writeHead(code, statusMsg, header)] that Node accepted, [EEnd] and
    [ERemoveHeader] are [res.end] and [res.removeHeader], and
    [ESetTimeout h req res] is the zero-delay timer that [_process] arms to
    invoke handler [h]. *)
Inductive event :=
| EEmit (type msg : string) (data : value)
| EWriteHead (r : sink) (code statusMsg : value) (header : list (string * string))
| EEnd (r : sink) (text : json_text)
| ERemoveHeader (r : sink) (name : string)
| ESetTimeout (handler : fn_ref) (req : request) (res : value).

(** How a computation ends: normally, by an exception, or not at all. *)
Inductive outcome (A : Type) :=
| Normal (a : A)
| Thrown (e : value)
| Diverges.

Arguments Normal {A} a.
Arguments Thrown {A} e.
Arguments Diverges {A}.

(** A computation: given the events that happened so far, the events it
    adds, in order, and how it ends. *)
Definition M (A : Type) : Type := list event -> list event * outcome A.

Definition ret {A} (a : A) : M A := fun _ => ([], Normal a).
Definition throw {A} (e : value) : M A := fun _ => ([], Thrown e).
Definition hang {A} : M A := fun _ => ([], Diverges).
Definition tell (ev : event) : M () := fun _ => ([ev], Normal ()).

Definition bind {A B} (m : M A) (f : A -> M B) : M B :=
  fun h =>
    match m h with
    | (t, Normal a) => let '(t', r) := f a (h ++ t) in (t ++ t', r)
    | (t, Thrown e) => (t, Thrown e)
    | (t, Diverges) => (t, Diverges)
    end.

(** [try { m } catch (e) { c e }] *)
Definition try_catch {A} (m : M A) (c : value -> M A) : M A :=
  fun h =>
    match m h with
    | (t, Thrown e) => let '(t', r) := c e (h ++ t) in (t ++ t', r)
    | r => r
    end.

Declare Scope js_scope.
Delimit Scope js_scope with js.
Notation "x <- c1 ;; c2" := (bind c1 (fun x => c2))
  (at level 100, c1 at next level, right associativity) : js_scope.
Notation "c1 ;; c2" := (bind c1 (fun _ => c2))
  (at level 100, right associativity) : js_scope.
Open Scope js_scope.

(** Whether the head of response [r] is out: a [writeHead] on it went
    through. *)
Definition headers_sent (r : sink) (h : list event) : bool :=
  existsb (fun ev => match ev with
                     | EWriteHead r' _ _ _ => bool_decide (r' = r)
                     | _ => false
                     end) h.

(** [Error.prototype.toString] *)
Definition error_toString (name message : string) : string :=
  if String.eqb name "" then message
  else if String.eqb message "" then name
  else name +:+ ": " +:+ message.

(** ['' + v] *)
Definition to_string (st : state) (v : value) : string :=
  match v with
  | VUndef => "undefined"
  | VNull => "null"
  | VBool true => "true"
  | VBool false => "false"
  | VNum n => pretty n
  | VStr s => s
  | VObj _ | VRes _ => "[object Object]"
  | VError name message _ => error_toString name message
  | VFun f => fn_source (fn_of st f)
  end.

Section Dispatcher.

Context `{Runtime}.

(** An error object as the engine throws it. *)
Definition engine_error (name msg : string) : value :=
  VError name msg (VStr (engine_stack name msg)).

Definition TypeError (msg : string) : value := engine_error "TypeError" msg.

(** [logger.emit(type, msg, data)]: an ['error'] event that nobody listens
    to is thrown by the emitter. *)
Definition emit (st : state) (type msg : string) (data : value) : M () :=
  if String.eqb type "error" && negb (error_listener st)
  then throw (engine_error "Error" ("Unhandled error. (" +:+ msg +:+ ")"))
  else tell (EEmit type msg data).

(** [v.k] where [v] may be [undefined] or [null]. *)
Definition get_prop (v : value) (k : string) : M value :=
  match v with
  | VUndef => throw (TypeError ("Cannot read property '" +:+ k +:+ "' of undefined"))
  | VNull => throw (TypeError ("Cannot read property '" +:+ k +:+ "' of null"))
  | _ => ret (get v k)
  end.

(** [res.writeHead(code, statusMsg, header)]: only a response object has the
    method; it throws when the head is already out and when Node refuses the
    code or the message, and sends the head otherwise. *)
Definition writeHead (res code statusMsg : value)
    (header : list (string * string)) : M () :=
  match res with
  | VRes r =>
      fun h =>
        if headers_sent r h then throw headers_sent_error h
        else match head_check code statusMsg with
             | Some err => throw err h
             | None => tell (EWriteHead r code statusMsg header) h
             end
  | VUndef | VNull =>
      throw (TypeError "Cannot read property 'writeHead' of undefined")
  | _ => throw (TypeError "res.writeHead is not a function")
  end.

(** [res.end(data_string)] *)
Definition res_end (res : value) (text : json_text) : M () :=
  match res with
  | VRes r => tell (EEnd r text)
  | VUndef | VNull => throw (TypeError "Cannot read property 'end' of undefined")
  | _ => throw (TypeError "res.end is not a function")
  end.

(** [res.removeHeader(name)] *)
Definition removeHeader (res : value) (name : string) : M () :=
  match res with
  | VRes r =>
      fun h =>
        if headers_sent r h then throw headers_locked_error h
        else tell (ERemoveHeader r name) h
  | VUndef | VNull =>
      throw (TypeError "Cannot read property 'removeHeader' of undefined")
  | _ => throw (TypeError "res.removeHeader is not a function")
  end.

(** Running a user function against the callback it was handed. *)
Fixpoint run_script {A} (cb : A -> M ()) (s : script A) : M value :=
  match s with
  | Return v => ret v
  | Throw e => throw e
  | Callback a k => cb a ;; run_script cb k
  end.

(** ** [authByJson] *)

(** [authByJson(credentials)]: [auth_function] stands for the function that
    [Auth.authByJsonFunction(credentials)] returns (lib/auth.js is not among
    the sources).  The wrapper handed to [auth] is a new function object: as
    an auth function it computes [auth_function(u, p)] and passes the result
    to [cb]; called with fewer than three arguments its [cb] is [undefined]. *)
Definition authByJson_wrapper (auth_function : value -> value -> value)
  : fn_obj :=
  {| fn_length := 3; fn_auth := VUndef;
     fn_source := "function(u, p, cb) {
            var r = auth_function(u, p);
            cb(r);
        }";
     fn_handler := fun _ => Throw (TypeError "cb is not a function");
     fn_authfn := fun u p => Callback (auth_function u p) (Return VUndef) |}.

Definition authByJson (auth_function : value -> value -> value)
    (st : state) : state :=
  let r := fresh (dom (functions st)) in
  auth (VFun r)
    (with_functions st (<[ r := authByJson_wrapper auth_function ]> (functions st))).


(** [v == n] for a number [n]. *)
Definition loose_eq_num (v : value) (n : Z) : bool :=
  match v with
  | VNum m => m =? n
  | VStr s => bool_decide (StringToNumber s = Some n)
  | VBool b => (if b then 1 else 0) =? n
  | VError name message _ =>
      bool_decide (StringToNumber (error_toString name message) = Some n)
  | VUndef | VNull | VObj _ | VFun _ | VRes _ => false
  end.

(** ** Response writer *)

Definition _getHeaders (data : value) : list (string * string) :=
  let header := [("content-type", "application/json");
                 ("X-Content-Type-Options", "nosniff");
                 ("X-Frame-Options", "DENY")] in
  if truthy data && loose_eq_num (get data "code") 401
  then header ++ [("WWW-Authenticate", "Basic user:pass")]
  else header.

Definition _writeResponse (st : state) (res data extra : value) : M () :=
  let data := if negb (truthy data) then VStr (to_string st data) else data in
  let extra := if negb (truthy extra) then VObj [] else extra in
  let header := _getHeaders data in
  let statusMsg :=
    js_or (js_or (js_or (get extra "status") (get data "error"))
             (get data "msg")) (VStr "success") in
  let code := js_or (js_or (get extra "code") (get data "code")) (VNum 200) in
  let data :=
    if debug st && truthy (get extra "e") && is_undef (get data "e")
    then set data "e"
           (js_or (get (get extra "e") "stack")
              (VStr (to_string st (get extra "e"))))
    else data in
  let data_string :=
    JSON_stringify data (if prettyJson st then Some 2%nat else None) in
  emit st "info" ("Making " +:+ to_string st code +:+ " response") data ;;
  writeHead res code statusMsg header ;;
  res_end res data_string.

(** ** Authorization decision *)

(** [f(user, pass, cb)] *)
Definition call_auth (st : state) (f user pass : value) (cb : value -> M ())
  : M () :=
  match f with
  | VFun r => run_script cb (fn_authfn (fn_of st r) user pass) ;; ret ()
  | _ => throw (TypeError "auth is not a function")
  end.

Definition is_false (v : value) : bool :=
  match v with VBool false => true | _ => false end.

Definition _checkAuthDetails (st : state) (handler_auth : value)
    (authDetails : value * value) (cb : value -> M ()) : M () :=
  if truthy handler_auth then
    call_auth st handler_auth (fst authDetails) (snd authDetails) cb
  else if is_false handler_auth then
    cb (VBool true)
  else if truthy (checkAuth st) then
    call_auth st (checkAuth st) (fst authDetails) (snd authDetails) cb
  else cb (VBool true).

(** ** Handler invocation *)

Definition with_ip (req : request) (ip : value) : request :=
  {| req_method := req_method req; req_pathname := req_pathname req;
     req_query := req_query req; req_body := req_body req;
     req_user := req_user req; req_pass := req_pass req;
     req_remoteAddress := req_remoteAddress req;
     req_args := req_args req; req_ip := ip |}.

Definition with_body (req : request) (b : value) : request :=
  {| req_method := req_method req; req_pathname := req_pathname req;
     req_query := req_query req; req_body := b;
     req_user := req_user req; req_pass := req_pass req;
     req_remoteAddress := req_remoteAddress req;
     req_args := req_args req; req_ip := req_ip req |}.

Definition with_args (req : request) (a : list string) : request :=
  {| req_method := req_method req; req_pathname := req_pathname req;
     req_query := req_query req; req_body := req_body req;
     req_user := req_user req; req_pass := req_pass req;
     req_remoteAddress := req_remoteAddress req;
     req_args := a; req_ip := req_ip req |}.

Definition _getRequestData (st : state) (req : request) : request_data :=
  if fullRequest st then FullRequest (with_ip req (req_remoteAddress req))
  else RequestView (req_method req) (req_args req) (req_body req)
         (req_remoteAddress req).

(** The callback [function(err, result, extra)] that an asynchronous handler
    receives as its second argument. *)
Definition completion (st : state) (res : value)
    (a : value * value * value) : M () :=
  let '(err, result, extra) := a in
  extra <- (if truthy err then
              e <- get_prop extra "e" ;;
              if is_undef e then ret (set extra "e" err) else ret extra
            else ret extra) ;;
  _writeResponse st res result extra.

(** A synchronous handler is called with one argument: its second parameter
    is [undefined], and calling it faults. *)
Definition no_callback (a : value * value * value) : M () :=
  throw (TypeError "undefined is not a function").

Definition error_envelope (st : state) (e : value) : value :=
  VObj [("ok", VBool false); ("code", VNum 500);
        ("error", VStr (to_string st e))].

(** The function armed by [setTimeout(.., 0)] once authorization succeeded. *)
Definition invoke_handler (st : state) (handler : fn_ref) (req : request)
    (res : value) : M () :=
  try_catch
    (if (2 <=? fn_length (fn_of st handler))%nat then
       run_script (completion st res)
         (fn_handler (fn_of st handler) (_getRequestData st req)) ;;
       ret ()
     else
       result <- run_script no_callback
                   (fn_handler (fn_of st handler) (_getRequestData st req)) ;;
       _writeResponse st res result VUndef)
    (fun e =>
       emit st "warn" "Uncaught exception in handler" (VObj [("e", e)]) ;;
       _writeResponse st res (error_envelope st e) (VObj [("e", e)])).

(** ** The request pipeline of [_process] *)

(** [responseData] as written in the [!responseData.ok] branch, where
    [handler] and [args] were never assigned. *)
Definition not_found_body (rd : returnDict) : value :=
  VObj [("ok", VBool (rd_ok rd)); ("code", VNum (rd_code rd));
        ("error", match rd_error rd with Some e => VStr e | None => VUndef end)].

(** The callback handed to [_checkAuthDetails]. *)
Definition on_auth (st : state) (handler : fn_ref) (req : request)
    (res : value) (auth : value) : M () :=
  if negb (truthy auth) then
    _writeResponse st res
      (VObj [("code", VNum 401); ("ok", VBool false);
             ("error", VStr "Auth failed")]) VUndef
  else tell (ESetTimeout handler req res).

(** The continuation handed to [middleware.run].  When the resolver does
    not return, neither does the continuation. *)
Definition on_middleware_done (st : state) (req : request) (res : value)
  : M () :=
  let req := if String.eqb (req_method req) "GET"
             then with_body req (req_query req) else req in
  match _checkParamsSupplied st req with
  | None => hang
  | Some (responseData, st) =>
      if negb (rd_ok responseData) then
        _writeResponse st res (not_found_body responseData) VUndef
      else
        match rd_handler responseData with
        | None => throw (TypeError "Cannot read property 'auth' of undefined")
        | Some handler =>
            let req := with_args req (default [] (rd_args responseData)) in
            _checkAuthDetails st (fn_auth (fn_of st handler))
              (req_user req, req_pass req) (on_auth st handler req res)
        end
  end.

Definition middleware_step : Type :=
  request -> value -> (request -> M ()) -> M ().

(** The rate-limit middleware installed by [init] when [extra.rateLimit] is
    set; [handleRateLimit] is the limiter's verdict for a client address. *)
Definition rateLimit_step (st : state) (handleRateLimit : value -> bool)
  : middleware_step :=
  fun req res next =>
    if negb (handleRateLimit (req_remoteAddress req)) then
      _writeResponse st
        (VObj [("ok", VBool false); ("code", VNum 429);
               ("error", VStr "Rate limit reached")]) VUndef VUndef
    else next req.

(** The last middleware installed by [init]. *)
Definition removeHeader_step : middleware_step :=
  fun req res next =>
    removeHeader res "X-Powered-By" ;;
    next req.

(** The chain that [init] builds with [use], in order; [compression], [json]
    and [urlencoded] stand for the middleware of the compression and
    body-parser libraries. *)
Definition init_middleware (st : state) (compress rateLimit : bool)
    (handleRateLimit : value -> bool)
    (compression json urlencoded : middleware_step) : list middleware_step :=
  (if compress then [compression] else [])
  ++ (if rateLimit then [rateLimit_step st handleRateLimit] else [])
  ++ [json; urlencoded; removeHeader_step].

(** Modelled from the spec: [middleware.run] of lib/middleware.js, which is
    not part of the sources.  Steps run one after the other in registration
    order; a step either calls its continuation, which runs the next step, or
    does not, in which case neither the later steps nor [done] run. *)
Fixpoint middleware_run (steps : list middleware_step) (req : request)
    (res : value) (done : request -> M ()) : M () :=
  match steps with
  | [] => done req
  | f :: rest => f req res (fun req' => middleware_run rest req' res done)
  end.

(** The request listener returned by [_process()]. *)
Definition _process (st : state) (steps : list middleware_step)
    (req : request) (res : value) : M () :=
  try_catch
    (middleware_run steps req res (fun req => on_middleware_done st req res))
    (fun e =>
       stack <- get_prop e "stack" ;;
       emit st "error" "Uncaught exception"
         (VObj [("e", e); ("stack", stack)]) ;;
       _writeResponse st res (error_envelope st e) (VObj [("e", e)])).

End Dispatcher.

(** ** Vocabulary of the properties *)

(** A path segment: a string without ["/"]. *)
Fixpoint slash_free (s : string) : bool :=
  match s with
  | EmptyString => true
  | String c r => negb (Ascii.eqb c slash) && slash_free r
  end.

(** [P/a1/.../ad]: the path [P] followed by the segments [a1 .. ad]. *)
Definition path_join (P : string) (segs : list string) : string :=
  fold_left (fun acc a => acc +:+ "/" +:+ a) segs P.

(** The path one level up, as the resolver computes it, and the [k]-th
    ancestor of a path (the path itself for [k = 0]). *)
Definition parent (endpoint : string) : string :=
  substring endpoint 0 (lastIndexOf endpoint slash).

Fixpoint ancestor (k : nat) (endpoint : string) : string :=
  match k with
  | O => endpoint
  | S k' => ancestor k' (parent endpoint)
  end.

Definition ends_with_slash (s : string) : bool :=
  bool_decide (char_at s (js_length s - 1) = Some slash).

(** Whether the loop of [_checkParamsSupplied] is bound to end on
    [endpoint]: the depth is finite, or the endpoint starts with a slash. *)
Definition leading_slash (k : string) : bool :=
  match k with
  | String c _ => Ascii.eqb c slash
  | EmptyString => false
  end.

Definition bounded (m : depth_setting) (endpoint : string) : bool :=
  match m with
  | Finite _ => true
  | Infinity => leading_slash endpoint
  end.

(** Fuel that lasts the loop from [depth] on. *)
Definition enough (fuel : nat) (m : depth_setting) (endpoint : string)
    (depth : Z) : Prop :=
  match m with
  | Finite n => (Z.to_nat (n - depth) + 2 <= fuel)%nat
  | Infinity =>
      leading_slash endpoint = true /\ (String.length endpoint + 1 <= fuel)%nat
  end.

(** The result of a successful resolution. *)
Definition matched (h : fn_ref) (args_ : list string) : returnDict :=
  {| rd_ok := true; rd_code := 404; rd_error := None;
     rd_handler := Some h; rd_args := Some args_ |}.

(** The result of a failed resolution of [endpoint]. *)
Definition not_matched (endpoint : string) : returnDict :=
  {| rd_ok := false; rd_code := 404;
     rd_error := Some ("No endpoint " +:+ endpoint);
     rd_handler := None; rd_args := None |}.

(** A request for [pathname] with nothing else set. *)
Definition request_for (method pathname : string) : request :=
  {| req_method := method; req_pathname := pathname; req_query := VObj [];
     req_body := VUndef; req_user := VUndef; req_pass := VUndef;
     req_remoteAddress := VStr "127.0.0.1"; req_args := []; req_ip := VUndef |}.

(** The state right after [init] with default settings. *)
Definition initial_state : state :=
  {| routes := ∅; checkAuth := VBool false; maxDepth := Finite 1; debug := false;
     prettyJson := false; fullRequest := false; error_listener := true;
     functions := ∅ |}.

(** The state right after [init] with [maxDepth: Infinity]. *)
Definition unbounded_state : state :=
  {| routes := ∅; checkAuth := VBool false; maxDepth := Infinity;
     debug := false; prettyJson := false; fullRequest := false;
     error_listener := true; functions := ∅ |}.

(** [f] is one of the functions that [_r] reaches in [d]. *)
Fixpoint leaf_in (f : fn_ref) (d : endpoints) {struct d} : bool :=
  match d with
  | EObject entries =>
      (fix any (es : list (string * endpoints)) : bool :=
         match es with
         | [] => false
         | (_, dk) :: rest =>
             match dk with
             | EFunction g => bool_decide (g = f)
             | EObject _ => leaf_in f dk
             | EOther => false
             end || any rest
         end) entries
  | EFunction _ | EOther => false
  end.

(** A registration call [addEndpoints(route, extra)], and a series of them. *)
Definition registration : Type := list (string * endpoints) * value.


(** Whether a registration assigns [f.auth]: [extra.auth] is truthy and [f]
    is among the functions it registers. *)
Definition sets_auth (f : fn_ref) (reg : registration) : bool :=
  truthy (js_and (snd reg) (get (snd reg) "auth"))
  && leaf_in f (EObject (fst reg)).



Definition apply_auth (b : bool) (a : value) (o : fn_obj) : fn_obj :=
  if b then with_auth o a else o.

(** Every key of the route table starts with a slash. *)
Definition routes_wf (r : gmap string fn_ref) : Prop :=
  forall k h, r !! k = Some h -> leading_slash k = true.

(** A store with two handlers and two auth functions, for the examples. *)
Definition sample_functions : gmap fn_ref fn_obj :=
  {[ 1%nat := {| fn_length := 1; fn_auth := VUndef; fn_source := "function (req) { }";
                 fn_handler := fun _ => Return (VObj [("ok", VBool true)]);
                 fn_authfn := fun _ _ => Return VUndef |};
     2%nat := {| fn_length := 2; fn_auth := VUndef; fn_source := "function (req, cb) { }";
                 fn_handler := fun _ => Throw (VStr "boom");
                 fn_authfn := fun _ _ => Return VUndef |};
     10%nat := {| fn_length := 3; fn_auth := VUndef; fn_source := "function (u, p, cb) { }";
                  fn_handler := fun _ => Return VUndef;
                  fn_authfn := fun _ _ => Callback (VBool true) (Return VUndef) |};
     20%nat := {| fn_length := 3; fn_auth := VUndef; fn_source := "function (u, p, cb) { }";
                  fn_handler := fun _ => Return VUndef;
                  fn_authfn := fun _ _ => Callback (VBool false) (Return VUndef) |} ]}.

Definition sample_state : state := with_functions initial_state sample_functions.

(** A runtime that converts strings of decimal digits only. *)
Fixpoint digits_value (acc : Z) (s : string) : option Z :=
  match s with
  | EmptyString => Some acc
  | String c r =>
      match Ascii.is_nat c with
      | Some d => digits_value (10 * acc + Z.of_nat d) r
      | None => None
      end
  end.

(** [code | 0] as far as the examples need it: a number is itself, a string
    of digits its value, anything else [0]. *)
Definition status_number (code : value) : Z :=
  match code with
  | VNum n => n
  | VStr s => default 0 (digits_value 0 s)
  | _ => 0
  end.

Definition sample_stack (name msg : string) : string :=
  error_toString name msg +:+ "
    at <anonymous>".

Definition sample_error (name msg : string) : value :=
  VError name msg (VStr (sample_stack name msg)).

(** The check of [res.writeHead]: the code must lie between 100 and 999, and
    a status message that is a string must hold valid characters only (a
    message that is not a string is taken for the headers argument). *)
Definition sample_head_check (code statusMsg : value) : option value :=
  let n := status_number code in
  if (100 <=? n) && (n <=? 999) then
    match statusMsg with
    | VStr s =>
        if valid_status_text s then None
        else Some (sample_error "TypeError" "Invalid character in statusMessage")
    | _ => None
    end
  else Some (sample_error "RangeError" ("Invalid status code: " +:+ pretty n)).

(** A runtime for the examples: it converts strings of decimal digits only
    and checks a response head as described above. *)
#[global, refine] Instance decimal_runtime : Runtime :=
  {| StringToNumber := digits_value 0;
     StringToNumber_empty := eq_refl;
     engine_stack := sample_stack;
     head_check := sample_head_check;
     headers_sent_error :=
       sample_error "Error"
         "Cannot write headers after they are sent to the client";
     headers_locked_error :=
       sample_error "Error"
         "Cannot remove headers after they are sent to the client" |}.
Proof.
  - intros n s Hn Hs. unfold sample_head_check. cbn [status_number].
    replace (100 <=? n) with true by (symmetry; apply Z.leb_le; lia).
    replace (n <=? 999) with true by (symmetry; apply Z.leb_le; lia).
    cbn. now rewrite Hs.
  - intros n s Hs. unfold sample_head_check.
    destruct ((100 <=? status_number (VNum n))
              && (status_number (VNum n) <=? 999));
      [rewrite Hs |]; discriminate.
  - intros n s Hn. unfold sample_head_check. cbn [status_number].
    destruct (100 <=? n) eqn:E1; [destruct (n <=? 999) eqn:E2 |]; cbn;
      try discriminate.
    apply Z.leb_le in E1, E2. lia.
Defined.

(** The first truthy value of a list, [d] when there is none: the value of
    [v1 || v2 || .. || d]. *)
Fixpoint first_truthy (l : list value) (d : value) : value :=
  match l with
  | [] => d
  | v :: rest => if truthy v then v else first_truthy rest d
  end.

(** The first value of a list that is not [undefined], [d] when there is
    none: the reading of "if present, else" in which a property counts as
    present whenever it has a value. *)
Fixpoint first_present (l : list value) (d : value) : value :=
  match l with
  | [] => d
  | v :: rest => if is_undef v then first_present rest d else v
  end.

(** The payload and the overrides after the defaulting at the head of
    [_writeResponse]. *)
Definition payload (st : state) (data : value) : value :=
  if truthy data then data else VStr (to_string st data).

Definition overrides (extra : value) : value :=
  if truthy extra then extra else VObj [].

(** The payload as serialized: in debug mode, with [extra.e] truthy and no
    [e] on the payload, the exception's stack or string form is attached. *)
Definition serialized (st : state) (data extra : value) : value :=
  if debug st && truthy (get (overrides extra) "e")
     && is_undef (get (payload st data) "e")
  then set (payload st data) "e"
         (js_or (get (get (overrides extra) "e") "stack")
            (VStr (to_string st (get (overrides extra) "e"))))
  else payload st data.

Definition indent (st : state) : option nat :=
  if prettyJson st then Some 2%nat else None.

Definition base_headers : list (string * string) :=
  [("content-type", "application/json");
   ("X-Content-Type-Options", "nosniff");
   ("X-Frame-Options", "DENY")].

Definition auth_hint : string * string := ("WWW-Authenticate", "Basic user:pass").

(** The events of one response written to sink [r]. *)
Definition response (st : state) (r : sink) (code statusMsg : value)
    (header : list (string * string)) (body : value) : list event :=
  [EEmit "info" ("Making " +:+ to_string st code +:+ " response") body;
   EWriteHead r code statusMsg header;
   EEnd r (JSON_stringify body (indent st))].

(** The status code and the status text of a response, as
    [_writeResponse] picks them. *)
Definition status_code (st : state) (data extra : value) : value :=
  first_truthy [get (overrides extra) "code"; get (payload st data) "code"]
    (VNum 200).

Definition status_text (st : state) (data extra : value) : value :=
  first_truthy [get (overrides extra) "status"; get (payload st data) "error";
                get (payload st data) "msg"] (VStr "success").

(** The log line that precedes every attempt to write a response. *)
Definition announced (st : state) (code body : value) : list event :=
  [EEmit "info" ("Making " +:+ to_string st code +:+ " response") body].

(** What handing a response to [res.writeHead] and [res.end] comes to: after
    the log line, the call throws when the head of [r] is already out or Node
    refuses the code or the message, and the response is written otherwise. *)
Definition written `{Runtime} (st : state) (r : sink) (code statusMsg : value)
    (header : list (string * string)) (body : value) : M () :=
  fun h =>
    if headers_sent r h then (announced st code body, Thrown headers_sent_error)
    else match head_check code statusMsg with
         | Some err => (announced st code body, Thrown err)
         | None => (response st r code statusMsg header body, Normal ())
         end.


(** How often a script fires its callback, whether it ends by throwing, and
    how many responses a trace writes. *)
Fixpoint fires {A} (s : script A) : nat :=
  match s with
  | Callback _ k => S (fires k)
  | Return _ | Throw _ => O
  end.


Fixpoint writes (t : list event) : nat :=
  match t with
  | EWriteHead _ _ _ _ :: rest => S (writes rest)
  | _ :: rest => writes rest
  | [] => O
  end.

Definition is_nullish (v : value) : bool :=
  match v with VUndef | VNull => true | _ => false end.

(** The overrides that the completion callback passes on: [err] is stored as
    [extra.e] when it is truthy and [extra] has no [e] yet. *)
Definition completion_extra (err extra : value) : value :=
  if truthy err && is_undef (get extra "e") then set extra "e" err else extra.

(** The payload of the 500 reply to a thrown [e], as serialized. *)
Definition fault_body (st : state) (e : value) : value :=
  if debug st && truthy e
  then VObj [("ok", VBool false); ("code", VNum 500);
             ("error", VStr (to_string st e));
             ("e", js_or (get e "stack") (VStr (to_string st e)))]
  else error_envelope st e.

(** The status text of the 500 reply to a thrown [e]: its string form,
    "success" when that is empty. *)
Definition fault_text (st : state) (e : value) : string :=
  if String.eqb (to_string st e) "" then "success" else to_string st e.

Definition fault_warning (e : value) : event :=
  EEmit "warn" "Uncaught exception in handler" (VObj [("e", e)]).

(** The events of the inner [catch] block of [_process] for a thrown [e]
    when its 500 reply is written. *)
Definition fault_reply (st : state) (r : sink) (e : value) : list event :=
  fault_warning e
  :: response st r (VNum 500) (VStr (fault_text st e)) base_headers
       (fault_body st e).

(** The inner [catch] block of [_process]. *)
Definition on_fault `{Runtime} (st : state) (res : value) (e : value) : M () :=
  emit st "warn" "Uncaught exception in handler" (VObj [("e", e)]) ;;
  _writeResponse st res (error_envelope st e) (VObj [("e", e)]).

(** What the inner [catch] block comes to on a response object: the warning,
    then the 500 reply handed to the writer. *)
Definition faulted `{Runtime} (st : state) (r : sink) (e : value) : M () :=
  fun h =>
    let '(t, o) := written st r (VNum 500) (VStr (fault_text st e))
                     base_headers (fault_body st e) (h ++ [fault_warning e]) in
    (fault_warning e :: t, o).

(** The events of the inner [catch] block when the head of the response is
    already out: the warning and the log line of the 500 that is refused. *)
Definition fault_refused (st : state) (e : value) : list event :=
  fault_warning e :: announced st (VNum 500) (fault_body st e).

(** ** Vocabulary of the further properties *)

(** The routes that [_r] writes for [d], in the order it writes them. *)
Fixpoint flatten (stack : list string) (d : endpoints) {struct d}
  : list (string * fn_ref) :=
  match d with
  | EObject entries =>
      (fix each (es : list (string * endpoints)) : list (string * fn_ref) :=
         match es with
         | [] => []
         | (k, dk) :: rest =>
             match dk with
             | EFunction f => [(route_key (stack ++ [k]), f)]
             | EObject _ => flatten (stack ++ [k]) dk
             | EOther => []
             end ++ each rest
         end) entries
  | EFunction _ | EOther => []
  end.

(** Writing a list of routes into a table, one after the other. *)
Definition insert_all (l : list (string * fn_ref)) (m : gmap string fn_ref)
  : gmap string fn_ref :=
  fold_left (fun m kf => <[ fst kf := snd kf ]> m) l m.

(** How many timers a trace arms, and the response object an event acts
    on. *)
Fixpoint timers (t : list event) : nat :=
  match t with
  | ESetTimeout _ _ _ :: rest => S (timers rest)
  | _ :: rest => timers rest
  | [] => O
  end.

Definition event_sink (ev : event) : option sink :=
  match ev with
  | EWriteHead r _ _ _ | EEnd r _ | ERemoveHeader r _ => Some r
  | EEmit _ _ _ | ESetTimeout _ _ _ => None
  end.

(** Every event of the trace that acts on a response object acts on [r]. *)
Definition only_sink (r : sink) (t : list event) : Prop :=
  Forall (fun ev => event_sink ev = None \/ event_sink ev = Some r) t.

(** The 401 reply of the dispatcher. *)
Definition auth_failed_body : value :=
  VObj [("code", VNum 401); ("ok", VBool false); ("error", VStr "Auth failed")].

(** The request as the dispatcher sees it once the middleware is done: for a
    GET request the parsed query replaces the body. *)
Definition parsed (req : request) : request :=
  if String.eqb (req_method req) "GET" then with_body req (req_query req)
  else req.

(** A store with one handler that returns nothing, and a server whose logger
    has no listener for 'error' events, for the examples. *)
Definition quiet_state : state :=
  {| routes := {[ "/ping" := 3%nat ]}; checkAuth := VBool false; maxDepth := Finite 1;
     debug := false; prettyJson := false; fullRequest := false;
     error_listener := false;
     functions :=
       {[ 3%nat := {| fn_length := 0; fn_auth := VUndef;
                      fn_source := "function () { }";
                      fn_handler := fun _ => Return VUndef;
                      fn_authfn := fun _ _ => Return VUndef |} ]} |}.

(** An auth script all of whose verdicts are truthy. *)
Fixpoint approves (s : script value) : bool :=
  match s with
  | Return _ | Throw _ => true
  | Callback v k => truthy v && approves k
  end.

(** What one run may write to [r] after the events [h]: nothing when the head
    of [r] is out, one response at most otherwise. *)
Definition quota (r : sink) (h t : list event) : Prop :=
  only_sink r t /\ (writes t <= if headers_sent r h then 0 else 1)%nat.

(** A script that returns, and none of whose firings makes the completion
    callback fault. *)
Fixpoint faultless (s : script (value * value * value)) : bool :=
  match s with
  | Return _ => true
  | Throw _ => false
  | Callback (err, _, extra) k =>
      negb (truthy err && is_nullish extra) && faultless k
  end.

(** A store with a handler that fires its callback twice, an auth function
    that rejects twice, a handler that throws a text of two lines, and a
    handler that returns a code Node refuses. *)
Definition eager_state : state :=
  {| routes := {[ "/twice" := 4%nat ]}; checkAuth := VBool false; maxDepth := Finite 1;
     debug := false; prettyJson := false; fullRequest := false;
     error_listener := true;
     functions :=
       {[ 4%nat := {| fn_length := 2; fn_auth := VUndef;
                      fn_source := "function (req, cb) { }";
                      fn_handler := fun _ =>
                        Callback (VNull, VObj [("ok", VBool true)], VUndef)
                          (Callback (VNull, VObj [("ok", VBool true)], VUndef)
                             (Return VUndef));
                      fn_authfn := fun _ _ => Return VUndef |};
          5%nat := {| fn_length := 3; fn_auth := VUndef;
                      fn_source := "function (u, p, cb) { }";
                      fn_handler := fun _ => Return VUndef;
                      fn_authfn := fun _ _ =>
                        Callback (VBool false)
                          (Callback (VBool false) (Return VUndef)) |};
          6%nat := {| fn_length := 1; fn_auth := VUndef;
                      fn_source := "function (req) { }";
                      fn_handler := fun _ =>
                        Throw (VStr "first line
second line");
                      fn_authfn := fun _ _ => Return VUndef |};
          7%nat := {| fn_length := 1; fn_auth := VUndef;
                      fn_source := "function (req) { }";
                      fn_handler := fun _ =>
                        Return (VObj [("ok", VBool false); ("code", VNum 1001)]);
                      fn_authfn := fun _ _ => Return VUndef |} ]} |}.

(** * Properties *)

(** ** Strings *)

Lemma append_cons (c : ascii) (a b : string) :
  String c a +:+ b = String c (a +:+ b).
Proof. reflexivity. Qed.

Lemma length_append (a b : string) :
  String.length (a +:+ b) = (String.length a + String.length b)%nat.
Proof.
  induction a as [|c a IH]; [reflexivity |].
  rewrite append_cons. simpl. now rewrite IH.
Qed.

Lemma append_assoc (a b c : string) : (a +:+ b) +:+ c = a +:+ b +:+ c.
Proof.
  induction a as [|x a IH]; [reflexivity |].
  rewrite !append_cons. now rewrite IH.
Qed.

Lemma js_length_append (a b : string) :
  js_length (a +:+ b) = js_length a + js_length b.
Proof. unfold js_length. rewrite length_append. lia. Qed.

Lemma js_length_nonneg (s : string) : 0 <= js_length s.
Proof. unfold js_length. lia. Qed.

Lemma substring_all (s : string) : String.substring 0 (String.length s) s = s.
Proof. induction s as [|c s IH]; simpl; [reflexivity | now rewrite IH]. Qed.

Lemma substring_head (q r : string) :
  String.substring 0 (String.length q) (q +:+ r) = q.
Proof.
  induction q as [|c q IH].
  - destruct r; reflexivity.
  - rewrite append_cons. simpl. now rewrite IH.
Qed.

Lemma substring_tail (q r : string) :
  String.substring (String.length q) (String.length r) (q +:+ r) = r.
Proof.
  induction q as [|c q IH]; [apply substring_all |].
  rewrite append_cons. simpl. exact IH.
Qed.

Lemma lastIndexOf_slash_free (a : string) :
  slash_free a = true -> lastIndexOf a slash = -1.
Proof.
  induction a as [|c a IH]; simpl; [reflexivity |].
  intros [Hc Ha]%andb_prop. rewrite (IH Ha). simpl.
  now destruct (Ascii.eqb c slash).
Qed.

(** In [q/a] with [a] a segment, the last slash is the one after [q]. *)
Lemma lastIndexOf_segment (q a : string) :
  slash_free a = true ->
  lastIndexOf (q +:+ "/" +:+ a) slash = js_length q.
Proof.
  intros Ha. induction q as [|c q IH].
  - change (lastIndexOf (String slash a) slash = 0).
    cbn [lastIndexOf]. rewrite (lastIndexOf_slash_free a Ha). reflexivity.
  - rewrite append_cons. cbn [lastIndexOf]. rewrite IH.
    pose proof (js_length_nonneg q) as Hq.
    destruct (0 <=? js_length q) eqn:E; [| lia].
    unfold js_length. simpl String.length. lia.
Qed.

Lemma substring_parent (q a : string) :
  substring (q +:+ "/" +:+ a) 0 (js_length q) = q.
Proof.
  unfold substring, clamp. rewrite js_length_append.
  pose proof (js_length_nonneg q). pose proof (js_length_nonneg ("/" +:+ a)).
  replace (Z.max 0 (Z.min 0 _)) with 0 by lia.
  replace (Z.max 0 (Z.min (js_length q) _)) with (js_length q) by lia.
  replace (Z.min 0 (js_length q)) with 0 by lia.
  replace (Z.max 0 (js_length q) - 0) with (js_length q) by lia.
  unfold js_length. rewrite Nat2Z.id. simpl Z.to_nat. apply substring_head.
Qed.

Lemma substring_last_segment (q a : string) :
  substring (q +:+ "/" +:+ a) (js_length q + 1)
    (js_length (q +:+ "/" +:+ a)) = a.
Proof.
  unfold substring, clamp. rewrite !js_length_append.
  pose proof (js_length_nonneg q). pose proof (js_length_nonneg a).
  change (js_length "/") with 1.
  replace (Z.max 0 (Z.min (js_length q + 1) _)) with (js_length q + 1) by lia.
  replace (Z.max 0 (Z.min (js_length q + (1 + js_length a)) _))
    with (js_length q + 1 + js_length a) by lia.
  replace (Z.min (js_length q + 1) _) with (js_length q + 1) by lia.
  replace (Z.max (js_length q + 1) _ - _) with (js_length a) by lia.
  replace (Z.to_nat (js_length q + 1)) with (String.length (q +:+ "/")).
  2:{ rewrite length_append. unfold js_length. simpl. lia. }
  unfold js_length at 1. rewrite Nat2Z.id.
  rewrite <- (append_assoc q "/" a). apply substring_tail.
Qed.

Lemma lastIndexOf_none_slash_free (s : string) :
  lastIndexOf s slash < 0 -> slash_free s = true.
Proof.
  induction s as [|c s IH]; [reflexivity |].
  cbn [lastIndexOf slash_free].
  destruct (0 <=? lastIndexOf s slash) eqn:E; [lia |].
  destruct (Ascii.eqb c slash); [lia |].
  intros _. apply IH. lia.
Qed.

(** A string with a slash splits at its last slash. *)
Lemma split_last_slash (e : string) :
  0 <= lastIndexOf e slash ->
  exists q a, e = q +:+ "/" +:+ a /\ slash_free a = true
              /\ js_length q = lastIndexOf e slash.
Proof.
  induction e as [|c e IH]; cbn [lastIndexOf]; [lia |].
  destruct (0 <=? lastIndexOf e slash) eqn:E.
  - intros _. destruct IH as (q & a & -> & Ha & Hq); [lia |].
    exists (String c q), a. repeat split; [exact Ha |].
    rewrite <- Hq. unfold js_length. simpl String.length. lia.
  - destruct (Ascii.eqb c slash) eqn:Ec; [| lia].
    intros _. apply Ascii.eqb_eq in Ec. subst c.
    exists "", e. repeat split.
    apply lastIndexOf_none_slash_free. lia.
Qed.


(** ** Route resolution *)

Lemma with_auth_same (o : fn_obj) : with_auth o (fn_auth o) = o.
Proof. now destruct o. Qed.

(** The self-assignment of [handler.auth] leaves the store as it is. *)
Lemma touch_auth_id (h : fn_ref) (st : state) : touch_auth h st = st.
Proof.
  unfold touch_auth, set_auth, js_and, fn_of. simpl.
  rewrite alter_id.
  - now destruct st.
  - intros o Ho. rewrite Ho. simpl. apply with_auth_same.
Qed.

Lemma path_join_snoc (P : string) (segs : list string) (a : string) :
  path_join P (segs ++ [a]) = path_join P segs +:+ "/" +:+ a.
Proof. unfold path_join. now rewrite fold_left_app. Qed.

Lemma path_join_length (P : string) (segs : list string) :
  js_length P <= js_length (path_join P segs).
Proof.
  induction segs as [|a segs IH] using rev_ind; [simpl; lia |].
  rewrite path_join_snoc, js_length_append.
  pose proof (js_length_nonneg ("/" +:+ a)). lia.
Qed.

Lemma path_join_empty (Q : string) (segs : list string) :
  path_join Q segs = "" -> Q = "" /\ segs = [].
Proof.
  destruct segs as [|a segs _] using rev_ind; [simpl; now intros -> |].
  rewrite path_join_snoc. intros Habs.
  apply (f_equal js_length) in Habs. rewrite js_length_append in Habs.
  pose proof (js_length_nonneg (path_join Q segs)).
  rewrite js_length_append in Habs. pose proof (js_length_nonneg a).
  change (js_length "/") with 1 in Habs. change (js_length "") with 0 in Habs.
  lia.
Qed.

Lemma js_length_pos (s : string) : s <> "" -> 0 < js_length s.
Proof. destruct s; [congruence | unfold js_length; simpl; lia]. Qed.

(** *** The depth setting *)

Lemma depth_le_mono (d d' : Z) (m : depth_setting) :
  depth_le d m = true -> d' <= d -> depth_le d' m = true.
Proof.
  destruct m as [n|]; cbn; [| reflexivity].
  intros Hd Hle. apply Z.leb_le in Hd. apply Z.leb_le. lia.
Qed.

Lemma depth_gt_le (d : Z) (m : depth_setting) :
  depth_gt d m = negb (depth_le d m).
Proof.
  destruct m as [n|]; cbn; [| reflexivity].
  rewrite Z.gtb_ltb, Z.ltb_antisym. reflexivity.
Qed.

Lemma depth_le_finite (d n : Z) : depth_le d (Finite n) = true <-> d <= n.
Proof. cbn. apply Z.leb_le. Qed.

(** Every segment adds at least its slash to the path. *)
Lemma path_join_segments (P : string) (segs : list string) :
  (length segs <= String.length (path_join P segs))%nat.
Proof.
  induction segs as [|a segs IH] using rev_ind; [simpl; lia |].
  rewrite path_join_snoc, length_app, !length_append. simpl. lia.
Qed.

(** A path that starts with a slash has a last slash; cut there, it is
    shorter and, unless the cut is at 0, still starts with a slash. *)
Lemma leading_slash_lastIndexOf (e : string) :
  leading_slash e = true -> 0 <= lastIndexOf e slash.
Proof.
  destruct e as [|c e]; [discriminate |]. cbn [leading_slash lastIndexOf].
  intros Hc. rewrite Hc.
  destruct (0 <=? lastIndexOf e slash) eqn:E; [| lia].
  apply Z.leb_le in E. lia.
Qed.

Lemma leading_slash_parent (e : string) :
  leading_slash e = true ->
  lastIndexOf e slash <> 0 ->
  leading_slash (substring e 0 (lastIndexOf e slash)) = true
  /\ (String.length (substring e 0 (lastIndexOf e slash)) < String.length e)%nat.
Proof.
  intros Hl Hne. pose proof (leading_slash_lastIndexOf e Hl) as Hi.
  destruct (split_last_slash e Hi) as (q & a & -> & Ha & Hq).
  rewrite <- Hq in Hne. rewrite <- Hq, substring_parent. split.
  - destruct q as [|c q]; [now contradict Hne |].
    exact Hl.
  - rewrite !length_append. simpl. lia.
Qed.

Lemma substring_empty (i j : Z) : substring "" i j = "".
Proof.
  unfold substring, clamp. change (js_length "") with 0.
  replace (Z.max 0 (Z.min i 0)) with 0 by lia.
  replace (Z.max 0 (Z.min j 0)) with 0 by lia.
  reflexivity.
Qed.

(** *** The loop *)

(** The loop finds [P] after stripping the segments one by one. *)
Lemma resolve_loop_found (st : state) (P : string) (h : fn_ref) :
  routes st !! P = Some h ->
  P <> "" ->
  forall (segs : list string) (fuel : nat) (rd : returnDict)
         (args_ : list string) (depth : Z),
    rd_ok rd = false ->
    Forall (fun a => slash_free a = true) segs ->
    (forall k : nat, (0 < k <= length segs)%nat ->
                     routes st !! path_join P (take k segs) = None) ->
    depth_le (depth + Z.of_nat (length segs)) (maxDepth st) = true ->
    (length segs + 2 <= fuel)%nat ->
    resolve_loop fuel st rd (path_join P segs) args_ depth
    = Some ({| rd_ok := true; rd_code := rd_code rd; rd_error := None;
               rd_handler := Some h; rd_args := Some (segs ++ args_) |}, st).
Proof.
  intros HP Hne segs.
  induction segs as [|a segs IH] using rev_ind;
    intros fuel rd args_ depth Hok Hfree Hmiss Hdepth Hfuel.
  - destruct fuel as [|[|fuel]]; simpl in Hfuel; try lia.
    simpl in Hdepth. rewrite Z.add_0_r in Hdepth.
    cbn [resolve_loop path_join fold_left].
    rewrite Hok, Hdepth. cbn [negb andb].
    rewrite HP, touch_auth_id. reflexivity.
  - rewrite length_app in Hdepth, Hfuel, Hmiss. simpl in Hdepth, Hfuel, Hmiss.
    apply Forall_app in Hfree as [Hfree Ha%Forall_inv].
    destruct fuel as [|fuel]; [lia |].
    cbn [resolve_loop]. rewrite Hok.
    rewrite (depth_le_mono _ depth _ Hdepth) by lia. cbn [negb andb].
    assert (routes st !! path_join P (segs ++ [a]) = None) as ->.
    { specialize (Hmiss (length segs + 1)%nat).
      rewrite take_ge in Hmiss by (rewrite length_app; simpl; lia).
      apply Hmiss. lia. }
    rewrite depth_gt_le, (depth_le_mono _ (depth + 1) _ Hdepth) by lia.
    cbn [negb].
    rewrite path_join_snoc, lastIndexOf_segment by exact Ha.
    pose proof (path_join_length P segs) as Hlen.
    pose proof (js_length_pos P Hne) as Hpos.
    destruct (js_length (path_join P segs) =? 0) eqn:E3; [lia |].
    cbn [negb]. rewrite substring_parent, substring_last_segment.
    rewrite IH; try assumption; try lia.
    + now rewrite <- app_assoc.
    + intros k Hk. specialize (Hmiss k).
      rewrite take_app_le in Hmiss by lia. apply Hmiss. lia.
    + apply (depth_le_mono _ _ _ Hdepth). lia.
Qed.

(** One more turn of the loop leaves enough fuel for the rest. *)
Lemma enough_step (fuel : nat) (m : depth_setting) (e : string) (depth : Z) :
  enough (S fuel) m e depth ->
  depth_gt (depth + 1) m = false ->
  lastIndexOf e slash <> 0 ->
  enough fuel m (substring e 0 (lastIndexOf e slash)) (depth + 1).
Proof.
  destruct m as [n|]; cbn [enough depth_gt].
  - intros Hf Hd _. rewrite Z.gtb_ltb in Hd. apply Z.ltb_ge in Hd. lia.
  - intros [Hl Hf] _ Hne.
    destruct (leading_slash_parent e Hl Hne) as [Hl' Hlen]. split; [exact Hl' | lia].
Qed.

Lemma enough_pos (fuel : nat) (m : depth_setting) (e : string) (depth : Z) :
  enough (S fuel) m e depth -> (1 <= fuel)%nat.
Proof.
  destruct m as [n|]; cbn [enough]; [lia |].
  intros [Hl Hf]. destruct e; [discriminate | simpl in Hf; lia].
Qed.

Lemma enough_fuel (st : state) (endpoint : string) :
  bounded (maxDepth st) endpoint = true ->
  enough (resolve_fuel st endpoint) (maxDepth st) endpoint 0.
Proof.
  unfold bounded, enough, resolve_fuel.
  destruct (maxDepth st) as [n|]; [lia |]. intros Hl. split; [exact Hl | lia].
Qed.

(** With a finite depth, and on a path that starts with a slash, the loop
    ends within the fuel that [_checkParamsSupplied] gives it. *)
Lemma resolve_loop_total (fuel : nat) :
  forall (st : state) (rd : returnDict) (endpoint : string)
         (args_ : list string) (depth : Z),
    (rd_ok rd = true /\ (1 <= fuel)%nat)
    \/ enough fuel (maxDepth st) endpoint depth ->
    is_Some (resolve_loop fuel st rd endpoint args_ depth).
Proof.
  induction fuel as [|fuel IH]; intros st rd endpoint args_ depth H.
  - destruct H as [[_ H] | H]; [lia |].
    unfold enough in H. destruct (maxDepth st); lia.
  - cbn [resolve_loop].
    destruct (negb (rd_ok rd) && depth_le depth (maxDepth st)) eqn:E; [| eauto].
    apply andb_prop in E as [Hok Hd]. apply negb_true_iff in Hok.
    destruct H as [[H _] | H]; [congruence |].
    destruct (routes st !! endpoint) as [h|].
    + rewrite touch_auth_id. apply IH. left. simpl.
      split; [reflexivity | exact (enough_pos _ _ _ _ H)].
    + destruct (depth_gt (depth + 1) (maxDepth st)) eqn:E2; [eauto |].
      destruct (lastIndexOf endpoint slash =? 0) eqn:E0; cbn [negb]; [eauto |].
      apply IH. right. apply enough_step; [exact H | exact E2 |].
      now apply Z.eqb_neq.
Qed.

Theorem _checkParamsSupplied_total (st : state) (req : request) :
  bounded (maxDepth st) (normalize (req_pathname req)) = true ->
  is_Some (_checkParamsSupplied st req).
Proof.
  intros Hb. unfold _checkParamsSupplied. apply resolve_loop_total.
  right. now apply enough_fuel.
Qed.

(** When none of the ancestors within reach is registered the loop leaves
    [returnDict] as it was. *)
Lemma resolve_loop_miss (fuel : nat) :
  forall (st : state) (rd : returnDict) (endpoint : string)
         (args_ : list string) (depth : Z),
    (forall k : nat, depth_le (depth + Z.of_nat k) (maxDepth st) = true ->
                     routes st !! ancestor k endpoint = None) ->
    enough fuel (maxDepth st) endpoint depth ->
    resolve_loop fuel st rd endpoint args_ depth = Some (rd, st).
Proof.
  induction fuel as [|fuel IH]; intros st rd endpoint args_ depth Hmiss Hfuel.
  - unfold enough in Hfuel. destruct (maxDepth st); lia.
  - cbn [resolve_loop].
    destruct (negb (rd_ok rd) && depth_le depth (maxDepth st)) eqn:E;
      [| reflexivity].
    apply andb_prop in E as [_ Hd].
    pose proof (Hmiss 0%nat) as H0. cbn [ancestor] in H0.
    rewrite Z.add_0_r in H0. rewrite (H0 Hd).
    destruct (depth_gt (depth + 1) (maxDepth st)) eqn:E2; [reflexivity |].
    destruct (lastIndexOf endpoint slash =? 0) eqn:E0; cbn [negb];
      [reflexivity |].
    apply IH.
    + intros k Hk. apply (Hmiss (S k)).
      replace (depth + Z.of_nat (S k)) with (depth + 1 + Z.of_nat k) by lia.
      exact Hk.
    + apply enough_step; [exact Hfuel | exact E2 | now apply Z.eqb_neq].
Qed.

(** *** Runs that do not end *)

(** More fuel does not change the result of a run that ended. *)
Lemma resolve_loop_mono (fuel : nat) :
  forall (fuel' : nat) (st : state) (rd : returnDict) (endpoint : string)
         (args_ : list string) (depth : Z) (out : returnDict * state),
    resolve_loop fuel st rd endpoint args_ depth = Some out ->
    (fuel <= fuel')%nat ->
    resolve_loop fuel' st rd endpoint args_ depth = Some out.
Proof.
  induction fuel as [|fuel IH];
    intros fuel' st rd endpoint args_ depth out Hrun Hle; [discriminate |].
  destruct fuel' as [|fuel']; [lia |].
  cbn [resolve_loop] in *.
  destruct (negb (rd_ok rd) && depth_le depth (maxDepth st)); [| exact Hrun].
  destruct (routes st !! endpoint) as [h|].
  - apply (IH fuel') in Hrun; [exact Hrun | lia].
  - destruct (depth_gt (depth + 1) (maxDepth st)); [exact Hrun |].
    destruct (negb (lastIndexOf endpoint slash =? 0)); [| exact Hrun].
    apply (IH fuel') in Hrun; [exact Hrun | lia].
Qed.

(** With an unbounded depth, the loop never leaves the empty endpoint when
    the empty string is not a route: no amount of fuel ends it. *)
Lemma resolve_loop_never (st : state) :
  maxDepth st = Infinity ->
  routes st !! "" = None ->
  forall (fuel : nat) (rd : returnDict) (args_ : list string) (depth : Z),
    rd_ok rd = false ->
    resolve_loop fuel st rd "" args_ depth = None.
Proof.
  intros Hm Hr fuel.
  induction fuel as [|fuel IH]; intros rd args_ depth Hok; [reflexivity |].
  cbn [resolve_loop]. rewrite Hok, Hm, Hr. cbn [negb andb depth_le depth_gt].
  change (lastIndexOf "" slash) with (-1). cbn [Z.eqb negb].
  rewrite substring_empty. now apply IH.
Qed.

(** The fuel of [_checkParamsSupplied] is enough to tell: a run that has not
    ended when it is used up does not end with any other amount. *)
Lemma resolve_loop_fuel (fuel : nat) :
  forall (st : state) (rd : returnDict) (endpoint : string)
         (args_ : list string) (depth : Z),
    maxDepth st = Infinity ->
    (String.length endpoint + 2 <= fuel)%nat ->
    resolve_loop fuel st rd endpoint args_ depth = None ->
    forall fuel' : nat, resolve_loop fuel' st rd endpoint args_ depth = None.
Proof.
  induction fuel as [|fuel IH];
    intros st rd endpoint args_ depth Hm Hfuel Hrun fuel'; [lia |].
  destruct fuel' as [|fuel']; [reflexivity |].
  cbn [resolve_loop] in *. rewrite Hm in *. cbn [depth_le depth_gt] in *.
  rewrite andb_true_r in *.
  destruct (negb (rd_ok rd)) eqn:Hok; [| discriminate].
  apply negb_true_iff in Hok.
  destruct (routes st !! endpoint) as [h|] eqn:Hr.
  - rewrite touch_auth_id in *. destruct fuel as [|fuel]; [lia |].
    cbn in Hrun. discriminate.
  - destruct (lastIndexOf endpoint slash =? 0) eqn:E0; cbn [negb] in *;
      [discriminate |].
    destruct endpoint as [|c e].
    + rewrite substring_empty.
      apply resolve_loop_never; assumption.
    + apply (IH st rd _ _ _ Hm); [| exact Hrun].
      apply Z.eqb_neq in E0.
      destruct (Z.le_gt_cases 0 (lastIndexOf (String c e) slash)) as [Hi | Hi].
      * destruct (split_last_slash _ Hi) as (q & a & Heq & Ha & Hq).
        rewrite Heq at 1. rewrite <- Hq, substring_parent.
        apply (f_equal String.length) in Heq.
        rewrite !length_append in Heq. simpl in Heq, Hfuel. simpl. lia.
      * replace (substring (String c e) 0 (lastIndexOf (String c e) slash))
          with "".
        { simpl in *. lia. }
        unfold substring, clamp. pose proof (js_length_nonneg (String c e)).
        replace (Z.max 0 (Z.min 0 (js_length (String c e)))) with 0 by lia.
        replace (Z.max 0 (Z.min (lastIndexOf (String c e) slash)
                            (js_length (String c e)))) with 0 by lia.
        reflexivity.
Qed.

Lemma normalize_no_slash (pathname : string) :
  ends_with_slash pathname = false -> normalize pathname = pathname.
Proof. unfold ends_with_slash, normalize. now intros ->. Qed.

(** Ancestors of [Q/a1/.../an] drop segments from the right. *)
Lemma ancestor_path_join (Q : string) (segs : list string) (k : nat) :
  Forall (fun a => slash_free a = true) segs ->
  (k <= length segs)%nat ->
  ancestor k (path_join Q segs) = path_join Q (take (length segs - k) segs).
Proof.
  revert k. induction segs as [|a segs IH] using rev_ind; intros k Hfree Hk.
  - simpl in Hk. now replace k with 0%nat by lia.
  - apply Forall_app in Hfree as [Hfree Ha%Forall_inv].
    rewrite length_app in *. simpl in *.
    destruct k as [|k].
    + now rewrite take_ge by (rewrite length_app; simpl; lia).
    + cbn [ancestor]. unfold parent.
      rewrite path_join_snoc, lastIndexOf_segment, substring_parent by exact Ha.
      rewrite IH by (assumption || lia).
      rewrite take_app_le by lia. f_equal. f_equal. lia.
Qed.

Lemma resolve_fuel_segments (st : state) (P : string) (segs : list string) :
  depth_le (Z.of_nat (length segs)) (maxDepth st) = true ->
  (length segs + 2 <= resolve_fuel st (path_join P segs))%nat.
Proof.
  unfold resolve_fuel. destruct (maxDepth st) as [n|]; cbn [depth_le].
  - intros Hd%Z.leb_le. lia.
  - intros _. pose proof (path_join_segments P segs). lia.
Qed.

(** C1 (amended).  For every route table, every registered path [P], and
    every list of [d] segments [a1 .. ad] with [0 <= d <= maxDepth] such that
    the request path [P/a1/.../ad] does not end in a slash, and such that none
    of the deeper paths [P/a1/.../ak] with [1 <= k <= d] is registered:
    resolving [P/a1/.../ad] returns a match with exactly the handler
    registered at [P] and the arguments [[a1; ..; ad]] in order, and leaves
    the store unchanged.  For [d = 0] this is the resolution of [P] itself,
    with an empty argument list.  ([P] is not the empty string: every key
    that [addEndpoints] writes starts with a slash.) *)
Theorem resolve_registered_prefix (st : state) (req : request) (P : string)
    (h : fn_ref) (segs : list string) :
  routes st !! P = Some h ->
  P <> "" ->
  Forall (fun a => slash_free a = true) segs ->
  req_pathname req = path_join P segs ->
  ends_with_slash (path_join P segs) = false ->
  depth_le (Z.of_nat (length segs)) (maxDepth st) = true ->
  (forall k : nat, (0 < k <= length segs)%nat ->
                   routes st !! path_join P (take k segs) = None) ->
  _checkParamsSupplied st req = Some (matched h segs, st).
Proof.
  intros HP Hne Hfree Hpath Hslash Hdepth Hmiss.
  unfold _checkParamsSupplied. rewrite Hpath, (normalize_no_slash _ Hslash).
  change (resolve_loop (resolve_fuel st (path_join P segs)) st
            (not_matched (path_join P segs)) (path_join P segs) [] 0
          = Some (matched h segs, st)).
  rewrite (resolve_loop_found st P h HP Hne segs
             (resolve_fuel st (path_join P segs))
             (not_matched (path_join P segs)) [] 0 eq_refl Hfree Hmiss).
  - now rewrite app_nil_r.
  - exact Hdepth.
  - apply resolve_fuel_segments. exact Hdepth.
Qed.

Lemma resolve_registered_prefix_witness :
  let st := addEndpoints [("users", EObject [("get", EFunction 7%nat)])]
              VUndef initial_state in
  _checkParamsSupplied st (request_for "GET" "/users/get/extra")
  = Some (matched 7%nat ["extra"], st).
Proof.
  intros st.
  apply (resolve_registered_prefix st (request_for "GET" "/users/get/extra")
           "/users/get" 7%nat ["extra"]).
  - vm_compute. reflexivity.
  - discriminate.
  - repeat constructor.
  - reflexivity.
  - vm_compute. reflexivity.
  - vm_compute. reflexivity.
  - intros k Hk. assert (k = 1%nat) as -> by (simpl in Hk; lia).
    vm_compute. reflexivity.
Defined.

(** One trailing slash on the request path makes no difference. *)
Lemma normalize_trailing_slash (p : string) : normalize (p +:+ "/") = p.
Proof.
  unfold normalize.
  assert (char_at (p +:+ "/") (js_length (p +:+ "/") - 1) = Some slash) as Hc.
  { unfold char_at. rewrite js_length_append. change (js_length "/") with 1.
    pose proof (js_length_nonneg p).
    destruct (js_length p + 1 - 1 <? 0) eqn:E; [lia |].
    replace (js_length p + 1 - 1) with (js_length p) by lia.
    unfold js_length. rewrite Nat2Z.id. clear.
    induction p as [|c p IH]; [reflexivity | rewrite append_cons; exact IH]. }
  rewrite bool_decide_eq_true_2 by exact Hc.
  rewrite js_length_append. change (js_length "/") with 1.
  replace (js_length p + 1 - 1) with (js_length p) by lia.
  exact (substring_parent p "").
Qed.

Corollary resolve_registered_prefix_slash (st : state) (req : request)
    (P : string) (h : fn_ref) (segs : list string) :
  routes st !! P = Some h ->
  P <> "" ->
  Forall (fun a => slash_free a = true) segs ->
  req_pathname req = path_join P segs +:+ "/" ->
  depth_le (Z.of_nat (length segs)) (maxDepth st) = true ->
  (forall k : nat, (0 < k <= length segs)%nat ->
                   routes st !! path_join P (take k segs) = None) ->
  _checkParamsSupplied st req = Some (matched h segs, st).
Proof.
  intros HP Hne Hfree Hpath Hdepth Hmiss.
  unfold _checkParamsSupplied. rewrite Hpath, normalize_trailing_slash.
  change (resolve_loop (resolve_fuel st (path_join P segs)) st
            (not_matched (path_join P segs)) (path_join P segs) [] 0
          = Some (matched h segs, st)).
  rewrite (resolve_loop_found st P h HP Hne segs
             (resolve_fuel st (path_join P segs))
             (not_matched (path_join P segs)) [] 0 eq_refl Hfree Hmiss).
  - now rewrite app_nil_r.
  - exact Hdepth.
  - apply resolve_fuel_segments. exact Hdepth.
Qed.

(** C1, as stated, fails on a registered key that ends in a slash: the
    trailing slash of the request path is removed before the first lookup, so
    the key ["/a/"] is never looked up for the request ["/a/"]. *)
Lemma resolve_trailing_slash_key_unmatched :
  let st := addEndpoints [("a/", EFunction 1%nat)] VUndef initial_state in
  routes st !! "/a/" = Some 1%nat
  /\ depth_le 0 (maxDepth st) = true
  /\ _checkParamsSupplied st (request_for "GET" "/a/")
     = Some (not_matched "/a", st).
Proof. vm_compute. repeat split. Qed.

Lemma _checkParamsSupplied_miss (st : state) (req : request) :
  bounded (maxDepth st) (normalize (req_pathname req)) = true ->
  (forall k : nat, depth_le (Z.of_nat k) (maxDepth st) = true ->
     routes st !! ancestor k (normalize (req_pathname req)) = None) ->
  _checkParamsSupplied st req
  = Some (not_matched (normalize (req_pathname req)), st).
Proof.
  intros Hb Hmiss. unfold _checkParamsSupplied. apply resolve_loop_miss.
  - intros k Hk. apply Hmiss. exact Hk.
  - now apply enough_fuel.
Qed.

(** C3 (amended).  When none of the first [maxDepth + 1] ancestors of the
    request path (the path itself included, a trailing slash removed) is
    registered, resolution returns a not-matched result with code 404 whose
    error message is ["No endpoint "] followed by the request path with one
    trailing slash removed; that is the request path as supplied whenever it
    does not end in a slash.  (With [maxDepth] set to [Infinity] all the
    ancestors count, and the statement is for a path that, the trailing slash
    removed, starts with a slash: on the other paths the resolution does not
    return.) *)
Theorem resolve_not_found (st : state) (req : request) :
  bounded (maxDepth st) (normalize (req_pathname req)) = true ->
  (forall k : nat, depth_le (Z.of_nat k) (maxDepth st) = true ->
     routes st !! ancestor k (normalize (req_pathname req)) = None) ->
  _checkParamsSupplied st req
  = Some ({| rd_ok := false; rd_code := 404;
             rd_error := Some ("No endpoint " +:+ normalize (req_pathname req));
             rd_handler := None; rd_args := None |}, st)
  /\ (ends_with_slash (req_pathname req) = false ->
      normalize (req_pathname req) = req_pathname req).
Proof.
  intros Hb Hmiss. split; [| apply normalize_no_slash].
  now apply _checkParamsSupplied_miss.
Qed.

Lemma resolve_not_found_witness :
  _checkParamsSupplied initial_state (request_for "GET" "/unknown/path")
  = Some (not_matched "/unknown/path", initial_state).
Proof.
  apply (resolve_not_found initial_state (request_for "GET" "/unknown/path")).
  - reflexivity.
  - intros k Hk. reflexivity.
Defined.

(** The same in terms of segments: a path that lies more than [maxDepth]
    segments below its nearest registered ancestor [P] is not matched. *)
Corollary resolve_too_deep (st : state) (req : request) (P : string)
    (segs : list string) :
  Forall (fun a => slash_free a = true) segs ->
  req_pathname req = path_join P segs ->
  ends_with_slash (path_join P segs) = false ->
  depth_le (Z.of_nat (length segs)) (maxDepth st) = false ->
  (forall k : nat, (0 < k <= length segs)%nat ->
                   routes st !! path_join P (take k segs) = None) ->
  _checkParamsSupplied st req = Some (not_matched (req_pathname req), st).
Proof.
  intros Hfree Hpath Hslash Hdeep Hmiss.
  destruct (maxDepth st) as [n|] eqn:Em; [| discriminate].
  apply Z.leb_gt in Hdeep.
  rewrite _checkParamsSupplied_miss.
  - rewrite Hpath, (normalize_no_slash _ Hslash). reflexivity.
  - now rewrite Em.
  - rewrite Em. intros k Hk%Z.leb_le.
    rewrite Hpath, (normalize_no_slash _ Hslash).
    rewrite ancestor_path_join by (assumption || lia).
    apply Hmiss. lia.
Qed.

(** C3, as stated, fails on a request path that ends in a slash: the message
    names the path after the removal of that slash, and the path as supplied
    does not occur in it. *)
Lemma not_found_names_stripped_path :
  _checkParamsSupplied initial_state (request_for "GET" "/unknown/path/")
  = Some (not_matched "/unknown/path", initial_state)
  /\ String.index 0 "/unknown/path/" ("No endpoint " +:+ "/unknown/path") = None.
Proof. vm_compute. split; reflexivity. Qed.

(** ** Registration *)

Lemma endpoints_nested_ind (P : endpoints -> Prop) :
  (forall f, P (EFunction f)) ->
  P EOther ->
  (forall entries, Forall (fun kd => P (snd kd)) entries -> P (EObject entries)) ->
  forall d, P d.
Proof.
  intros Hf Ho Hobj.
  fix IH 1. intros [f | entries |].
  - apply Hf.
  - apply Hobj. induction entries as [|[k dk] rest IHrest].
    + constructor.
    + constructor; [apply IH | exact IHrest].
  - apply Ho.
Qed.

Lemma _r_nil (extra : value) (stack : list string) (st : state) :
  _r extra stack (EObject []) st = st.
Proof. reflexivity. Qed.

Lemma _r_cons (extra : value) (stack : list string) (k : string)
    (dk : endpoints) (rest : list (string * endpoints)) (st : state) :
  _r extra stack (EObject ((k, dk) :: rest)) st
  = _r extra stack (EObject rest)
      match dk with
      | EFunction f => register extra (stack ++ [k]) f st
      | EObject _ => _r extra (stack ++ [k]) dk st
      | EOther => st
      end.
Proof. reflexivity. Qed.

Lemma leaf_in_cons (f : fn_ref) (k : string) (dk : endpoints)
    (rest : list (string * endpoints)) :
  leaf_in f (EObject ((k, dk) :: rest))
  = match dk with
    | EFunction g => bool_decide (g = f)
    | EObject _ => leaf_in f dk
    | EOther => false
    end || leaf_in f (EObject rest).
Proof. reflexivity. Qed.

Lemma apply_auth_twice (b1 b2 : bool) (a : value) (o : fn_obj) :
  apply_auth b2 a (apply_auth b1 a o) = apply_auth (b1 || b2) a o.
Proof. now destruct b1, b2. Qed.

Lemma register_functions (extra : value) (stack : list string)
    (g f : fn_ref) (st : state) :
  functions (register extra stack g st) !! f
  = apply_auth (truthy (js_and extra (get extra "auth")) && bool_decide (g = f))
      (get extra "auth") <$> functions st !! f.
Proof.
  unfold register.
  destruct (truthy (js_and extra (get extra "auth"))); simpl.
  - rewrite lookup_alter. case_bool_decide; case_decide; try congruence.
    + subst. reflexivity.
    + now destruct (functions st !! f).
  - now destruct (functions st !! f).
Qed.

(** What one [_r] traversal does to a function object of the store. *)
Lemma _r_functions (extra : value) (f : fn_ref) (d : endpoints) :
  forall (stack : list string) (st : state),
    functions (_r extra stack d st) !! f
    = apply_auth (truthy (js_and extra (get extra "auth")) && leaf_in f d)
        (get extra "auth") <$> functions st !! f.
Proof.
  induction d as [g | | entries IH] using endpoints_nested_ind;
    intros stack st.
  - simpl. rewrite andb_false_r. now destruct (functions st !! f).
  - simpl. rewrite andb_false_r. now destruct (functions st !! f).
  - revert st. induction IH as [| [k dk] rest Hdk _ IHrest]; intros st.
    + rewrite _r_nil. simpl. rewrite andb_false_r.
      now destruct (functions st !! f).
    + rewrite _r_cons, IHrest, leaf_in_cons.
      assert (forall b1 b2 (m : option fn_obj),
                 apply_auth (truthy (js_and extra (get extra "auth")) && b2)
                   (get extra "auth")
                 <$> (apply_auth (truthy (js_and extra (get extra "auth")) && b1)
                        (get extra "auth") <$> m)
                 = apply_auth (truthy (js_and extra (get extra "auth"))
                               && (b1 || b2)) (get extra "auth") <$> m) as Hc.
      { intros b1 b2 [o|]; simpl; [| reflexivity].
        rewrite apply_auth_twice. f_equal. f_equal.
        now destruct (truthy _), b1, b2. }
      destruct dk as [g | sub |]; cbn [snd] in Hdk.
      * rewrite register_functions. apply Hc.
      * rewrite Hdk. apply Hc.
      * rewrite <- (Hc false). f_equal. rewrite andb_false_r.
        now destruct (functions st !! f).
Qed.

Lemma addEndpoints_functions (route : list (string * endpoints))
    (extra : value) (st : state) (f : fn_ref) :
  functions (addEndpoints route extra st) !! f
  = apply_auth (sets_auth f (route, extra)) (get extra "auth")
    <$> functions st !! f.
Proof. apply _r_functions. Qed.







Lemma route_key_leading_slash (stack : list string) :
  leading_slash (route_key stack) = true.
Proof. reflexivity. Qed.

Lemma register_routes_wf (extra : value) (stack : list string) (g : fn_ref)
    (st : state) :
  routes_wf (routes st) -> routes_wf (routes (register extra stack g st)).
Proof.
  intros Hwf k h. unfold register.
  assert (forall st', routes st' = routes st ->
            (<[route_key stack:=g]> (routes st') !! k = Some h ->
             leading_slash k = true)) as H.
  { intros st' ->. rewrite lookup_insert_Some.
    intros [[<- _] | [_ Hk]]; [apply route_key_leading_slash | eauto]. }
  destruct (truthy (js_and extra (get extra "auth"))); now apply H.
Qed.

Lemma _r_routes_wf (extra : value) (d : endpoints) :
  forall (stack : list string) (st : state),
    routes_wf (routes st) -> routes_wf (routes (_r extra stack d st)).
Proof.
  induction d as [g | | entries IH] using endpoints_nested_ind;
    intros stack st Hwf; try exact Hwf.
  revert st Hwf. induction IH as [| [k dk] rest Hdk _ IHrest]; intros st Hwf.
  - exact Hwf.
  - rewrite _r_cons. apply IHrest. cbn [snd] in Hdk.
    destruct dk as [g | sub |].
    + now apply register_routes_wf.
    + now apply Hdk.
    + exact Hwf.
Qed.

(** Registration only ever writes keys that start with a slash. *)
Lemma addEndpoints_routes_wf (route : list (string * endpoints))
    (extra : value) (st : state) :
  routes_wf (routes st) -> routes_wf (routes (addEndpoints route extra st)).
Proof. apply _r_routes_wf. Qed.

Lemma initial_routes_wf : routes_wf (routes initial_state).
Proof. intros k h. simpl. now rewrite lookup_empty. Qed.

Lemma routes_wf_nonempty (r : gmap string fn_ref) (k : string) (h : fn_ref) :
  routes_wf r -> r !! k = Some h -> k <> "".
Proof. intros Hwf Hk ->. now apply Hwf in Hk. Qed.

(** ** Response writer *)

Section Writer.

Context `{Runtime}.

Lemma js_or_first_truthy2 (a b d : value) :
  js_or (js_or a b) d = first_truthy [a; b] d.
Proof. unfold js_or. simpl. destruct (truthy a) eqn:Ea; [now rewrite Ea | reflexivity]. Qed.

Lemma js_or_first_truthy3 (a b c d : value) :
  js_or (js_or (js_or a b) c) d = first_truthy [a; b; c] d.
Proof.
  unfold js_or. simpl.
  destruct (truthy a) eqn:Ea; [now rewrite !Ea |].
  destruct (truthy b) eqn:Eb; [now rewrite Eb | reflexivity].
Qed.

(** *** Effects *)

Lemma bind_ret {A B} (a : A) (f : A -> M B) (h : list event) :
  bind (ret a) f h = f a h.
Proof. unfold bind, ret. rewrite app_nil_r. now destruct (f a h). Qed.

Lemma bind_tell {B} (ev : event) (f : () -> M B) (h : list event) :
  bind (tell ev) f h = let '(t, o) := f () (h ++ [ev]) in (ev :: t, o).
Proof. reflexivity. Qed.

Lemma bind_throw {A B} (e : value) (f : A -> M B) (h : list event) :
  bind (throw e) f h = ([], Thrown e).
Proof. reflexivity. Qed.

Lemma headers_sent_app (r : sink) (h t : list event) :
  headers_sent r (h ++ t) = headers_sent r h || headers_sent r t.
Proof. apply existsb_app. Qed.

Lemma headers_sent_emit (r : sink) (h : list event) (type msg : string)
    (data : value) :
  headers_sent r (h ++ [EEmit type msg data]) = headers_sent r h.
Proof. rewrite headers_sent_app. cbn. now rewrite orb_false_r. Qed.

Lemma headers_sent_response (st : state) (r : sink) (code statusMsg : value)
    (header : list (string * string)) (body : value) :
  headers_sent r (response st r code statusMsg header body) = true.
Proof. cbn. now rewrite bool_decide_eq_true_2. Qed.

Lemma headers_sent_announced (st : state) (r : sink) (code body : value) :
  headers_sent r (announced st code body) = false.
Proof. reflexivity. Qed.

(** *** The writer *)

(** A response handed to a response object. *)
Lemma written_cases (st : state) (r : sink) (code statusMsg : value)
    (header : list (string * string)) (body : value) (h : list event) :
  written st r code statusMsg header body h
  = if headers_sent r h
    then (announced st code body, Thrown headers_sent_error)
    else match head_check code statusMsg with
         | Some err => (announced st code body, Thrown err)
         | None => (response st r code statusMsg header body, Normal ())
         end.
Proof. reflexivity. Qed.

Lemma written_accepted (st : state) (r : sink) (n : Z) (s : string)
    (header : list (string * string)) (body : value) (h : list event) :
  headers_sent r h = false ->
  100 <= n <= 999 ->
  valid_status_text s = true ->
  written st r (VNum n) (VStr s) header body h
  = (response st r (VNum n) (VStr s) header body, Normal ()).
Proof.
  intros Hh Hn Hs. unfold written.
  now rewrite Hh, head_check_accepts.
Qed.

Lemma written_sent (st : state) (r : sink) (code statusMsg : value)
    (header : list (string * string)) (body : value) (h : list event) :
  headers_sent r h = true ->
  written st r code statusMsg header body h
  = (announced st code body, Thrown headers_sent_error).
Proof. intros Hh. unfold written. now rewrite Hh. Qed.

Lemma _writeResponse_res (st : state) (r : sink) (data extra : value)
    (h : list event) :
  _writeResponse st (VRes r) data extra h
  = written st r (status_code st data extra) (status_text st data extra)
      (_getHeaders (payload st data)) (serialized st data extra) h.
Proof.
  unfold status_code, status_text.
  rewrite <- js_or_first_truthy2, <- js_or_first_truthy3.
  unfold written, announced, response, serialized, indent.
  assert (forall d x,
    _writeResponse st (VRes r) d x h
    = let data := if negb (truthy d) then VStr (to_string st d) else d in
      let extra := if negb (truthy x) then VObj [] else x in
      let code := js_or (js_or (get extra "code") (get data "code")) (VNum 200) in
      let statusMsg :=
        js_or (js_or (js_or (get extra "status") (get data "error"))
                 (get data "msg")) (VStr "success") in
      let body :=
        if debug st && truthy (get extra "e") && is_undef (get data "e")
        then set data "e"
               (js_or (get (get extra "e") "stack")
                  (VStr (to_string st (get extra "e"))))
        else data in
      let line := EEmit "info" ("Making " +:+ to_string st code +:+ " response")
                    body in
      if headers_sent r h then ([line], Thrown headers_sent_error)
      else match head_check code statusMsg with
           | Some err => ([line], Thrown err)
           | None =>
               ([line; EWriteHead r code statusMsg (_getHeaders data);
                 EEnd r (JSON_stringify body
                           (if prettyJson st then Some 2%nat else None))],
                Normal ())
           end) as Hw.
  { intros d x. unfold _writeResponse. cbv zeta.
    unfold emit. cbn [String.eqb Ascii.eqb Bool.eqb andb].
    rewrite bind_tell. unfold bind at 1. unfold writeHead.
    rewrite headers_sent_emit.
    destruct (headers_sent r h); [reflexivity |].
    destruct (head_check _ _); reflexivity. }
  rewrite Hw. unfold payload, overrides.
  destruct (truthy data), (truthy extra); reflexivity.
Qed.

(** C5 (amended).  Every response handed to a response object carries the
    status code [overrides.code] if that is truthy, else [data.code] if that
    is truthy, else 200, and the status text [overrides.status] if truthy,
    else [data.error] if truthy, else [data.msg] if truthy, else "success";
    [data] and [overrides] are taken after defaulting (a falsy payload is
    replaced by its string form, falsy overrides by an empty object).  These
    are the values passed to [res.writeHead]: the response is written with
    them whenever the head of the response is not out yet and Node accepts
    them. *)
Theorem response_status (st : state) (r : sink) (data extra : value) :
  exists header body,
    (forall h : list event,
        _writeResponse st (VRes r) data extra h
        = written st r
            (first_truthy [get (overrides extra) "code";
                           get (payload st data) "code"] (VNum 200))
            (first_truthy [get (overrides extra) "status";
                           get (payload st data) "error";
                           get (payload st data) "msg"] (VStr "success"))
            header body h)
    /\ (forall h : list event,
           headers_sent r h = false ->
           head_check
             (first_truthy [get (overrides extra) "code";
                            get (payload st data) "code"] (VNum 200))
             (first_truthy [get (overrides extra) "status";
                            get (payload st data) "error";
                            get (payload st data) "msg"] (VStr "success"))
           = None ->
           _writeResponse st (VRes r) data extra h
           = (response st r
                (first_truthy [get (overrides extra) "code";
                               get (payload st data) "code"] (VNum 200))
                (first_truthy [get (overrides extra) "status";
                               get (payload st data) "error";
                               get (payload st data) "msg"] (VStr "success"))
                header body,
              Normal ())).
Proof.
  eexists _, _. split.
  - intros h. apply _writeResponse_res.
  - intros h Hh Hc. rewrite _writeResponse_res. unfold written.
    fold (status_code st data extra) (status_text st data extra) in Hc.
    now rewrite Hh, Hc.
Qed.

Lemma _getHeaders_cases (data : value) :
  _getHeaders data
  = if truthy data && loose_eq_num (get data "code") 401
    then base_headers ++ [auth_hint] else base_headers.
Proof. reflexivity. Qed.

Lemma auth_hint_not_base : auth_hint ∉ base_headers.
Proof.
  unfold base_headers, auth_hint. intros Hin.
  repeat (apply elem_of_cons in Hin as [Hin | Hin]; [discriminate |]).
  now apply elem_of_nil in Hin.
Qed.

Lemma auth_hint_appended : auth_hint ∈ base_headers ++ [auth_hint].
Proof. apply elem_of_app. right. apply list_elem_of_here. Qed.

Lemma falsy_not_401 (v : value) :
  truthy v = false -> loose_eq_num v 401 = false.
Proof.
  destruct v as [| | [] | n | s | | | |]; simpl; try easy.
  - intros Hn. apply negb_false_iff, Z.eqb_eq in Hn. now subst.
  - intros Hs. apply negb_false_iff, String.eqb_eq in Hs. subst.
    rewrite StringToNumber_empty. now apply bool_decide_eq_false.
Qed.

(** C6 (amended).  Every response handed to a response object carries the
    headers content-type, X-Content-Type-Options and X-Frame-Options, and in
    addition WWW-Authenticate exactly when the payload's own [code] equals
    ([==]) 401, whatever [overrides.code] is.  When the overrides carry no
    truthy [code], that is exactly when the status code of the response is
    401.  These are the headers passed to [res.writeHead]: the response is
    written with them whenever the head of the response is not out yet and
    Node accepts the code and the status text. *)
Theorem response_headers (st : state) (r : sink) (data extra : value) :
  exists code statusMsg header body,
    (forall t : list event,
        _writeResponse st (VRes r) data extra t
        = written st r code statusMsg header body t)
    /\ (forall t : list event,
           headers_sent r t = false ->
           head_check code statusMsg = None ->
           _writeResponse st (VRes r) data extra t
           = (response st r code statusMsg header body, Normal ()))
    /\ (forall h, h ∈ base_headers -> h ∈ header)
    /\ (auth_hint ∈ header <->
        truthy (payload st data)
        && loose_eq_num (get (payload st data) "code") 401 = true)
    /\ (truthy (get (overrides extra) "code") = false ->
        (auth_hint ∈ header <-> loose_eq_num code 401 = true)).
Proof.
  eexists _, _, _, _.
  split; [intros t; apply _writeResponse_res |].
  split.
  { intros t Ht Hc. rewrite _writeResponse_res. unfold written.
    now rewrite Ht, Hc. }
  rewrite _getHeaders_cases. unfold status_code.
  set (p := payload st data).
  destruct (truthy p && loose_eq_num (get p "code") 401) eqn:E.
  - split; [intros h Hh; apply elem_of_app; now left |].
    split; [split; [reflexivity | intros _; apply auth_hint_appended] |].
    intros Hx. simpl. rewrite Hx.
    apply andb_prop in E as [_ E].
    destruct (truthy (get p "code")) eqn:Hc.
    + split; [intros _; exact E | intros _; apply auth_hint_appended].
    + now rewrite falsy_not_401 in E.
  - split; [intros h Hh; exact Hh |].
    split; [split; [intros Hin; now apply auth_hint_not_base in Hin | discriminate] |].
    intros Hx. simpl. rewrite Hx.
    destruct (truthy (get p "code")) eqn:Hc.
    + split; [intros Hin; now apply auth_hint_not_base in Hin |].
      intros H401. assert (truthy p = true) as Hp.
      { destruct p; simpl in Hc |- *; try discriminate; reflexivity. }
      rewrite Hp, H401 in E. discriminate.
    + split; [intros Hin; now apply auth_hint_not_base in Hin | discriminate].
Qed.

End Writer.

(** C5, as stated, fails when a property is present but falsy: an empty
    [error] is skipped in favour of [msg], and an override code of 0 in
    favour of the payload's code. *)
Lemma falsy_fields_are_skipped :
  let data := VObj [("ok", VBool true); ("error", VStr ""); ("msg", VStr "saved")] in
  let data2 := VObj [("code", VNum 404)] in
  let extra2 := VObj [("code", VNum 0)] in
  _writeResponse initial_state (VRes 0%nat) data VUndef []
  = (response initial_state 0%nat (VNum 200) (VStr "saved") base_headers data,
     Normal ())
  /\ first_present [get (overrides VUndef) "status"; get data "error";
                    get data "msg"] (VStr "success") = VStr ""
  /\ _writeResponse initial_state (VRes 0%nat) data2 extra2 []
     = (response initial_state 0%nat (VNum 404) (VStr "success") base_headers
          data2, Normal ())
  /\ first_present [get extra2 "code"; get data2 "code"] (VNum 200) = VNum 0.
Proof. vm_compute. repeat split. Qed.

(** C6, as stated, fails when the status code comes from the overrides: a
    401 set there is written without the WWW-Authenticate header, and a
    payload code of 401 adds the header to a response whose status is 500. *)
Lemma auth_hint_follows_payload_code :
  let data := VObj [("ok", VBool false)] in
  let extra := VObj [("code", VNum 401)] in
  let data2 := VObj [("code", VNum 401)] in
  let extra2 := VObj [("code", VNum 500)] in
  _writeResponse initial_state (VRes 0%nat) data extra []
  = (response initial_state 0%nat (VNum 401) (VStr "success") base_headers data,
     Normal ())
  /\ _writeResponse initial_state (VRes 0%nat) data2 extra2 []
     = (response initial_state 0%nat (VNum 500) (VStr "success")
          (base_headers ++ [auth_hint]) data2, Normal ()).
Proof. vm_compute. split; reflexivity. Qed.

(** ** Authorization *)

(** C4.  The authorization decision follows the precedence table, for every
    credentials pair and callback: (1) a function override decides alone,
    whatever the global auth function is: the outcome is that of running the
    override against the callback; (2) an override that is [false] invokes
    the callback with [true], whatever the global auth function is; (3) with
    the override unset, a global auth function decides; (4) with the override
    unset and no global auth function, the callback is invoked with [true]. *)
Theorem auth_precedence (st : state) (details : value * value)
    (cb : value -> M ()) :
  (forall (f : fn_ref) (g : value),
      _checkAuthDetails (with_checkAuth st g) (VFun f) details cb
      = (run_script cb (fn_authfn (fn_of st f) (fst details) (snd details)) ;;
         ret ()))
  /\ (forall g : value,
         _checkAuthDetails (with_checkAuth st g) (VBool false) details cb
         = cb (VBool true))
  /\ (forall g : fn_ref,
         _checkAuthDetails (with_checkAuth st (VFun g)) VUndef details cb
         = (run_script cb (fn_authfn (fn_of st g) (fst details) (snd details)) ;;
            ret ()))
  /\ (forall g : value,
         truthy g = false ->
         _checkAuthDetails (with_checkAuth st g) VUndef details cb
         = cb (VBool true)).
Proof.
  repeat split; try reflexivity.
  intros g Hg. unfold _checkAuthDetails. simpl. now rewrite Hg.
Qed.

Lemma auth_precedence_witness :
  _checkAuthDetails (with_checkAuth sample_state (VBool false)) VUndef
    (VStr "user", VStr "secret") (fun auth => tell (EEmit "auth" "" auth))
  = tell (EEmit "auth" "" (VBool true)).
Proof.
  apply (auth_precedence sample_state (VStr "user", VStr "secret")
           (fun auth => tell (EEmit "auth" "" auth))).
  reflexivity.
Defined.

(** ** Handler invocation *)

Section Invocation.

Context `{Runtime}.

Lemma try_catch_normal {A} (m : M A) (c : value -> M A) (h t : list event)
    (a : A) :
  m h = (t, Normal a) -> try_catch m c h = (t, Normal a).
Proof. intros Hm. unfold try_catch. now rewrite Hm. Qed.

Lemma try_catch_thrown {A} (m : M A) (c : value -> M A) (h t : list event)
    (e : value) :
  m h = (t, Thrown e) ->
  try_catch m c h = let '(t', o) := c e (h ++ t) in (t ++ t', o).
Proof. intros Hm. unfold try_catch. now rewrite Hm. Qed.

Lemma bind_normal {A B} (m : M A) (f : A -> M B) (h t : list event) (a : A) :
  m h = (t, Normal a) ->
  bind m f h = let '(t', o) := f a (h ++ t) in (t ++ t', o).
Proof. intros Hm. unfold bind. now rewrite Hm. Qed.

Lemma bind_thrown {A B} (m : M A) (f : A -> M B) (h t : list event)
    (e : value) :
  m h = (t, Thrown e) -> bind m f h = (t, Thrown e).
Proof. intros Hm. unfold bind. now rewrite Hm. Qed.

Lemma bind_assoc {A B C} (m : M A) (g : A -> M B) (f : B -> M C)
    (h : list event) :
  bind (bind m g) f h = bind m (fun a => bind (g a) f) h.
Proof.
  unfold bind. destruct (m h) as [t [a | e |]]; try reflexivity.
  destruct (g a (h ++ t)) as [t' [b | e |]]; try reflexivity.
  rewrite <- (app_assoc h t t').
  destruct (f b (h ++ t ++ t')) as [t'' o]. now rewrite app_assoc.
Qed.

Lemma writes_app (t t' : list event) :
  writes (t ++ t') = (writes t + writes t')%nat.
Proof.
  induction t as [|[] t IH]; simpl; rewrite ?IH; reflexivity.
Qed.

Lemma writes_response (st : state) (r : sink) (code statusMsg : value)
    (header : list (string * string)) (body : value) :
  writes (response st r code statusMsg header body) = 1%nat.
Proof. reflexivity. Qed.


(** *** The catch block *)

Lemma fault_text_js_or (st : state) (e : value) :
  js_or (VStr (to_string st e)) (VStr "success") = VStr (fault_text st e).
Proof.
  unfold js_or, fault_text. cbn [truthy].
  now destruct (String.eqb (to_string st e) "").
Qed.

Lemma fault_status (st : state) (e : value) :
  status_code st (error_envelope st e) (VObj [("e", e)]) = VNum 500
  /\ status_text st (error_envelope st e) (VObj [("e", e)])
     = VStr (fault_text st e)
  /\ _getHeaders (payload st (error_envelope st e)) = base_headers
  /\ serialized st (error_envelope st e) (VObj [("e", e)]) = fault_body st e.
Proof.
  repeat split.
  - unfold status_text. rewrite <- fault_text_js_or. cbn.
    unfold js_or. cbn [truthy]. now destruct (negb _).
  - unfold serialized, fault_body. cbn.
    destruct (debug st), (truthy e); reflexivity.
Qed.

(** The inner [catch] on a response object. *)
Lemma on_fault_res (st : state) (r : sink) (e : value) (h : list event) :
  on_fault st (VRes r) e h = faulted st r e h.
Proof.
  unfold on_fault, faulted, emit.
  cbn [String.eqb Ascii.eqb Bool.eqb andb]. rewrite bind_tell.
  rewrite _writeResponse_res.
  destruct (fault_status st e) as (-> & -> & -> & ->). reflexivity.
Qed.

Lemma faulted_written (st : state) (r : sink) (e : value) (h : list event) :
  headers_sent r h = false ->
  valid_status_text (fault_text st e) = true ->
  faulted st r e h = (fault_reply st r e, Normal ()).
Proof.
  intros Hh Hs. unfold faulted.
  rewrite written_accepted; [reflexivity | | lia | exact Hs].
  unfold fault_warning. now rewrite headers_sent_emit.
Qed.

Lemma faulted_sent (st : state) (r : sink) (e : value) (h : list event) :
  headers_sent r h = true ->
  faulted st r e h = (fault_refused st e, Thrown headers_sent_error).
Proof.
  intros Hh. unfold faulted.
  rewrite written_sent; [reflexivity |].
  unfold fault_warning. now rewrite headers_sent_emit.
Qed.

Lemma faulted_invalid (st : state) (r : sink) (e : value) (h : list event) :
  headers_sent r h = false ->
  valid_status_text (fault_text st e) = false ->
  exists err, head_check (VNum 500) (VStr (fault_text st e)) = Some err
              /\ faulted st r e h = (fault_refused st e, Thrown err).
Proof.
  intros Hh Hs. unfold faulted, written, fault_warning.
  rewrite headers_sent_emit, Hh.
  pose proof (head_check_text 500 _ Hs) as Hc.
  destruct (head_check (VNum 500) (VStr (fault_text st e))) as [err|];
    [| congruence].
  exists err. now split.
Qed.


Lemma invoke_handler_catch (st : state) (h : fn_ref) (req : request)
    (res : value) :
  invoke_handler st h req res
  = try_catch
      (if (2 <=? fn_length (fn_of st h))%nat then
         run_script (completion st res)
           (fn_handler (fn_of st h) (_getRequestData st req)) ;;
         ret ()
       else
         result <- run_script no_callback
                     (fn_handler (fn_of st h) (_getRequestData st req)) ;;
         _writeResponse st res result VUndef)
      (on_fault st res).
Proof. reflexivity. Qed.

Lemma invoke_handler_throw (st : state) (h : fn_ref) (req : request)
    (r : sink) (e : value) (hist : list event) :
  fn_handler (fn_of st h) (_getRequestData st req) = Throw e ->
  invoke_handler st h req (VRes r) hist = faulted st r e hist.
Proof.
  intros Hs. rewrite invoke_handler_catch, Hs.
  rewrite (try_catch_thrown _ _ hist [] e).
  - rewrite app_nil_r, on_fault_res. now destruct (faulted st r e hist).
  - destruct (2 <=? fn_length (fn_of st h))%nat; reflexivity.
Qed.

(** The completion callback either faults on a missing [extra] before any
    event, or hands one response to the writer. *)
Lemma completion_cases (st : state) (r : sink) (err result extra : value)
    (hist : list event) :
  completion st (VRes r) (err, result, extra) hist
  = if truthy err && is_nullish extra
    then (get_prop extra "e" ;; ret ()) hist
    else _writeResponse st (VRes r) result (completion_extra err extra) hist.
Proof.
  unfold completion, completion_extra.
  destruct (truthy err); [| now rewrite bind_ret].
  rewrite bind_assoc.
  destruct extra; try reflexivity;
    cbn [get_prop andb is_nullish]; rewrite bind_ret;
    match goal with
    | |- context [is_undef ?v] => destruct (is_undef v)
    end; now rewrite bind_ret.
Qed.




(** C9.  When an asynchronous handler fires its callback with a truthy error
    and no third argument, the callback faults on reading [extra.e] before it
    emits or writes anything; with an object as third argument it hands a
    response to the writer, passing the error on as [extra.e] unless the
    object already has one, and that response is written whenever the head
    of the response is not out yet and Node accepts its code and status
    text. *)
Theorem completion_error_needs_extra (st : state) (r : sink)
    (err result : value) (hist : list event) :
  truthy err = true ->
  completion st (VRes r) (err, result, VUndef) hist
  = ([], Thrown (TypeError "Cannot read property 'e' of undefined"))
  /\ forall props,
      let extra := if is_undef (assoc props "e")
                   then VObj (assoc_set props "e" err) else VObj props in
      completion st (VRes r) (err, result, VObj props) hist
      = _writeResponse st (VRes r) result extra hist
      /\ (headers_sent r hist = false ->
          head_check (status_code st result extra)
            (status_text st result extra) = None ->
          writes (fst (completion st (VRes r) (err, result, VObj props) hist))
          = 1%nat).
Proof.
  intros Herr. split.
  - rewrite completion_cases, Herr. reflexivity.
  - intros props extra.
    assert (completion st (VRes r) (err, result, VObj props) hist
            = _writeResponse st (VRes r) result extra hist) as ->.
    { rewrite completion_cases, Herr. unfold completion_extra. rewrite Herr.
      cbn [andb is_nullish get set]. subst extra.
      now destruct (is_undef (assoc props "e")). }
    split; [reflexivity |].
    intros Hh Hc. rewrite _writeResponse_res. unfold written.
    now rewrite Hh, Hc.
Qed.

(** ** Rate limiting *)

(** C2 (the code as it is).  For a client that the limiter turns away, the
    rate-limit middleware calls [_writeResponse] with the 429 envelope in the
    place of the response object and no payload: a 200 is announced on the
    log for the payload ["undefined"], [writeHead] is looked up on the
    envelope, and the step ends in a [TypeError].  Nothing is written to the
    response, whatever it is, and the continuation is not run. *)
Theorem rate_limit_reply_faults (st : state) (limiter : value -> bool)
    (req : request) (res : value) (next : request -> M ())
    (hist : list event) :
  limiter (req_remoteAddress req) = false ->
  rateLimit_step st limiter req res next hist
  = ([EEmit "info" "Making 200 response" (VStr "undefined")],
     Thrown (TypeError "res.writeHead is not a function")).
Proof.
  intros Hl. unfold rateLimit_step. rewrite Hl. cbn [negb].
  unfold _writeResponse. cbn [truthy negb to_string].
  destruct (debug st); reflexivity.
Qed.

End Invocation.

(** ** Concrete runs *)





Lemma completion_error_needs_extra_witness :
  completion sample_state (VRes 0%nat) (VStr "failed", VUndef, VUndef) []
  = ([], Thrown (TypeError "Cannot read property 'e' of undefined")).
Proof.
  apply (completion_error_needs_extra sample_state 0%nat (VStr "failed") VUndef
           []).
  reflexivity.
Defined.

Lemma rate_limit_reply_faults_witness :
  rateLimit_step sample_state (fun _ => false) (request_for "GET" "/users/get")
    (VRes 0%nat) (fun _ => ret ()) []
  = ([EEmit "info" "Making 200 response" (VStr "undefined")],
     Thrown (TypeError "res.writeHead is not a function")).
Proof.
  apply (rate_limit_reply_faults sample_state (fun _ => false)
           (request_for "GET" "/users/get") (VRes 0%nat) (fun _ => ret ()) []).
  reflexivity.
Defined.

(** The rate-limited request end to end, with body parsers that pass the
    request on: the fault of the rate-limit step reaches the outer [catch] of
    [_process], and the client is sent a 500 instead of the 429. *)
Example rate_limited_request_gets_500 :
  let st := addEndpoints [("users", EObject [("get", EFunction 1%nat)])]
              VUndef sample_state in
  let pass : middleware_step := fun req res next => next req in
  _process st (init_middleware st false true (fun _ => false) pass pass pass)
    (request_for "GET" "/users/get") (VRes 0%nat) []
  = ([EEmit "info" "Making 200 response" (VStr "undefined");
      EEmit "error" "Uncaught exception"
        (VObj [("e", TypeError "res.writeHead is not a function");
               ("stack",
                VStr (sample_stack "TypeError"
                        "res.writeHead is not a function"))])]
     ++ response st 0%nat (VNum 500)
          (VStr "TypeError: res.writeHead is not a function") base_headers
          (VObj [("ok", VBool false); ("code", VNum 500);
                 ("error", VStr "TypeError: res.writeHead is not a function")]),
     Normal ()).
Proof. vm_compute. reflexivity. Qed.

(** The same request within its quota runs the whole chain and schedules
    the handler. *)
Example allowed_request_is_scheduled :
  let st := addEndpoints [("users", EObject [("get", EFunction 1%nat)])]
              VUndef sample_state in
  let pass : middleware_step := fun req res next => next req in
  let req := request_for "GET" "/users/get" in
  _process st (init_middleware st false true (fun _ => true) pass pass pass)
    req (VRes 0%nat) []
  = ([ERemoveHeader 0%nat "X-Powered-By";
      ESetTimeout 1%nat (with_args (with_body req (VObj [])) []) (VRes 0%nat)],
     Normal ()).
Proof. vm_compute. reflexivity. Qed.

(** [auth: false] passed to [addEndpoints] is not attached to the handler
    (only a truthy [extra.auth] is): under a global auth function that
    rejects, the request is answered 401. *)
Example auth_false_in_extra_not_attached :
  let st := auth (VFun 20%nat)
              (addEndpoints [("users", EObject [("get", EFunction 1%nat)])]
                 (VObj [("auth", VBool false)]) sample_state) in
  fn_auth (fn_of st 1%nat) = VUndef
  /\ on_middleware_done st (request_for "GET" "/users/get") (VRes 0%nat) []
     = (response st 0%nat (VNum 401) (VStr "Auth failed")
          (base_headers ++ [auth_hint])
          (VObj [("code", VNum 401); ("ok", VBool false);
                 ("error", VStr "Auth failed")]), Normal ()).
Proof. vm_compute. split; reflexivity. Qed.

(** A registered path with one extra segment: the handler is scheduled with
    the segment as argument, and writes its result when the timer fires. *)
Example request_with_argument :
  let st := addEndpoints [("users", EObject [("get", EFunction 1%nat)])]
              VUndef sample_state in
  let req := request_for "GET" "/users/get/extra" in
  let req' := with_args (with_body req (VObj [])) ["extra"] in
  on_middleware_done st req (VRes 0%nat) []
  = ([ESetTimeout 1%nat req' (VRes 0%nat)], Normal ())
  /\ invoke_handler st 1%nat req' (VRes 0%nat) [ESetTimeout 1%nat req' (VRes 0%nat)]
     = (response st 0%nat (VNum 200) (VStr "success") base_headers
          (VObj [("ok", VBool true)]), Normal ()).
Proof. vm_compute. split; reflexivity. Qed.

(** An unknown path is answered with the 404 envelope. *)
Example request_unknown_path :
  on_middleware_done sample_state (request_for "GET" "/unknown/path")
    (VRes 0%nat) []
  = (response sample_state 0%nat (VNum 404) (VStr "No endpoint /unknown/path")
       base_headers
       (VObj [("ok", VBool false); ("code", VNum 404);
              ("error", VStr "No endpoint /unknown/path")]), Normal ()).
Proof. vm_compute. reflexivity. Qed.

(** A global auth function that rejects: 401 with the WWW-Authenticate
    header; the same handler with [auth] set to [false] is scheduled. *)
Example request_rejected_by_global_auth :
  let st := with_checkAuth
              (addEndpoints [("users", EObject [("get", EFunction 1%nat)])]
                 VUndef sample_state) (VFun 20%nat) in
  let req := request_for "GET" "/users/get" in
  on_middleware_done st req (VRes 0%nat) []
  = (response st 0%nat (VNum 401) (VStr "Auth failed")
       (base_headers ++ [auth_hint])
       (VObj [("code", VNum 401); ("ok", VBool false);
              ("error", VStr "Auth failed")]), Normal ())
  /\ on_middleware_done (set_auth 1%nat (VBool false) st) req (VRes 0%nat) []
     = ([ESetTimeout 1%nat (with_args (with_body req (VObj [])) [])
           (VRes 0%nat)], Normal ()).
Proof. vm_compute. split; reflexivity. Qed.

(** A handler that returns a payload with a code that Node refuses: the
    writer's exception goes to the catch block, and the client is answered
    with the 500 for that exception instead of the payload. *)
Example refused_code_gets_500 :
  let err := sample_error "RangeError" "Invalid status code: 1001" in
  invoke_handler eager_state 7%nat (request_for "GET" "/code") (VRes 0%nat) []
  = (announced eager_state (VNum 1001)
       (VObj [("ok", VBool false); ("code", VNum 1001)])
     ++ fault_reply eager_state 0%nat err,
     Normal ())
  /\ fault_text eager_state err = "RangeError: Invalid status code: 1001".
Proof. vm_compute. split; reflexivity. Qed.

(** The same request on a connection whose response head is already out:
    neither the payload nor the 500 can be written, and the exception of the
    second refusal leaves the timer function. *)
Example late_reply_escapes :
  let sent := response quiet_state 0%nat (VNum 200) (VStr "success")
                base_headers (VObj []) in
  invoke_handler quiet_state 3%nat (request_for "GET" "/ping") (VRes 0%nat) sent
  = (announced quiet_state (VNum 200) (VStr "undefined")
     ++ fault_refused quiet_state headers_sent_error,
     Thrown headers_sent_error).
Proof. vm_compute. reflexivity. Qed.

(** * Further properties *)

(** ** Route resolution *)

(** A run of the loop that starts unmatched and ends unmatched returns the
    [returnDict] it started with. *)
Lemma resolve_loop_unmatched (fuel : nat) :
  forall (st : state) (rd : returnDict) (endpoint : string)
         (args_ : list string) (depth : Z) (rd' : returnDict) (st' : state),
    resolve_loop fuel st rd endpoint args_ depth = Some (rd', st') ->
    rd_ok rd' = false -> rd' = rd /\ st' = st.
Proof.
  induction fuel as [|fuel IH]; intros st rd e args_ depth rd' st' Hrun Hno;
    [discriminate |].
  cbn [resolve_loop] in Hrun.
  destruct (negb (rd_ok rd) && depth_le depth (maxDepth st)) eqn:E;
    [| injection Hrun as <- <-; now split].
  destruct (routes st !! e) as [h|].
  - destruct fuel as [|fuel]; [discriminate |].
    cbn in Hrun. injection Hrun as <- <-. discriminate.
  - destruct (depth_gt (depth + 1) (maxDepth st)); [injection Hrun as <- <-; now split |].
    destruct (negb (lastIndexOf e slash =? 0));
      [| injection Hrun as <- <-; now split].
    eapply IH; eassumption.
Qed.

(** A run of the loop that ends matched found its handler at a path [Q] from
    which the endpoint is reached by the stripped segments. *)
Lemma resolve_loop_sound (fuel : nat) :
  forall (st : state) (rd : returnDict) (e : string) (args_ : list string)
         (depth : Z) (rd' : returnDict) (st' : state),
    routes_wf (routes st) ->
    rd_ok rd = false ->
    resolve_loop fuel st rd e args_ depth = Some (rd', st') ->
    rd_ok rd' = true ->
    exists Q h segs,
      rd' = {| rd_ok := true; rd_code := rd_code rd; rd_error := None;
               rd_handler := Some h; rd_args := Some (segs ++ args_) |}
      /\ st' = st
      /\ routes st !! Q = Some h
      /\ path_join Q segs = e
      /\ Forall (fun a => slash_free a = true) segs
      /\ depth_le (depth + Z.of_nat (length segs)) (maxDepth st) = true
      /\ (forall j : nat, (0 < j <= length segs)%nat ->
                          routes st !! path_join Q (take j segs) = None).
Proof.
  induction fuel as [|fuel IH];
    intros st rd e args_ depth rd' st' Hwf Hok Hrun Hyes; [discriminate |].
  cbn [resolve_loop] in Hrun. rewrite Hok in Hrun. cbn [negb andb] in Hrun.
  destruct (depth_le depth (maxDepth st)) eqn:Ed;
    [| injection Hrun as <- <-; congruence].
  destruct (routes st !! e) as [h|] eqn:He.
  - rewrite touch_auth_id in Hrun.
    destruct fuel as [|fuel]; [discriminate |].
    cbn in Hrun. injection Hrun as <- <-.
    exists e, h, []. simpl. rewrite Z.add_0_r. repeat split; try done; try lia.
  - destruct (depth_gt (depth + 1) (maxDepth st)) eqn:E2;
      [injection Hrun as <- <-; congruence |].
    destruct (negb (lastIndexOf e slash =? 0)) eqn:E0;
      [| injection Hrun as <- <-; congruence].
    apply IH in Hrun as (Q & h & segs & -> & -> & HQ & Hjoin & Hfree & Hd & Hnone);
      try assumption.
    destruct (Z.le_gt_cases 0 (lastIndexOf e slash)) as [Hi | Hi].
    + destruct (split_last_slash e Hi) as (q & a & -> & Ha & Hq).
      rewrite <- Hq, substring_parent in Hjoin.
      rewrite <- Hq, substring_last_segment.
      exists Q, h, (segs ++ [a]).
      rewrite length_app, path_join_snoc, Hjoin, <- app_assoc. simpl.
      repeat split; try done.
      * apply Forall_app. split; [exact Hfree | now constructor].
      * apply (depth_le_mono _ _ _ Hd). lia.
      * intros j Hj. destruct (decide (j <= length segs)%nat) as [Hle | Hgt].
        -- rewrite take_app_le by exact Hle. apply Hnone. lia.
        -- rewrite take_ge by (rewrite length_app; simpl; lia).
           rewrite path_join_snoc, Hjoin. exact He.
    + assert (substring e 0 (lastIndexOf e slash) = "") as Hemp.
      { unfold substring, clamp. pose proof (js_length_nonneg e).
        replace (Z.max 0 (Z.min 0 (js_length e))) with 0 by lia.
        replace (Z.max 0 (Z.min (lastIndexOf e slash) (js_length e)))
          with 0 by lia.
        simpl. now destruct e. }
      rewrite Hemp in Hjoin. apply path_join_empty in Hjoin as [-> ->].
      apply Hwf in HQ. discriminate.
Qed.

Lemma resolve_loop_shape (fuel : nat) :
  forall (st : state) (rd : returnDict) (e : string) (args_ : list string)
         (depth : Z) (rd' : returnDict) (st' : state),
    rd_ok rd = false ->
    resolve_loop fuel st rd e args_ depth = Some (rd', st') ->
    st' = st
    /\ (rd' = rd
        \/ exists h a, rd' = {| rd_ok := true; rd_code := rd_code rd;
                               rd_error := None; rd_handler := Some h;
                               rd_args := Some a |}).
Proof.
  induction fuel as [|fuel IH]; intros st rd e args_ depth rd' st' Hok Hrun;
    [discriminate |].
  cbn [resolve_loop] in Hrun. rewrite Hok in Hrun. cbn [negb andb] in Hrun.
  destruct (depth_le depth (maxDepth st)); [| injection Hrun as <- <-; auto].
  destruct (routes st !! e) as [h|].
  - rewrite touch_auth_id in Hrun.
    destruct fuel as [|fuel]; [discriminate |].
    cbn in Hrun. injection Hrun as <- <-. eauto.
  - destruct (depth_gt (depth + 1) (maxDepth st)); [injection Hrun as <- <-; auto |].
    destruct (negb (lastIndexOf e slash =? 0));
      [| injection Hrun as <- <-; auto].
    eapply IH; eassumption.
Qed.

(** X1.  Route resolution returns whenever the depth setting is finite, and
    under an unbounded depth whenever the path (one trailing slash removed)
    starts with a slash; it changes neither the server settings nor the
    function store; and its result is either the 404 for the path with one
    trailing slash removed, or a match that carries a handler and an argument
    list (with [code] still at 404 and no error). *)
Theorem resolution_returns (st : state) (req : request) :
  bounded (maxDepth st) (normalize (req_pathname req)) = true ->
  exists rd,
    _checkParamsSupplied st req = Some (rd, st)
    /\ (rd = not_matched (normalize (req_pathname req))
        \/ exists h a, rd = matched h a).
Proof.
  intros Hb.
  destruct (_checkParamsSupplied_total st req Hb) as [[rd st'] Hrun].
  unfold _checkParamsSupplied in *.
  apply resolve_loop_shape in Hrun as Hs; [| reflexivity].
  destruct Hs as [-> Hs]. exists rd. split; [exact Hrun | exact Hs].
Qed.

Lemma resolution_returns_witness :
  let st := {| routes := {[ "/users/get" := 7%nat ]}; checkAuth := VBool false;
               maxDepth := Infinity; debug := false; prettyJson := false;
               fullRequest := false; error_listener := true;
               functions := ∅ |} in
  exists rd,
    _checkParamsSupplied st (request_for "GET" "/users/get/a/b/c/d")
    = Some (rd, st)
    /\ (rd = not_matched "/users/get/a/b/c/d" \/ exists h a, rd = matched h a).
Proof.
  intros st.
  apply (resolution_returns st (request_for "GET" "/users/get/a/b/c/d")).
  reflexivity.
Defined.

(** X22.  The result of a resolution does not depend on the fuel of the
    model: a run of the loop that ends, ends the same with more fuel, and
    when [_checkParamsSupplied] gives no result then no amount of fuel ends
    the loop, so that no result stands for a call that does not return. *)
Theorem resolution_fuel_adequate (st : state) (req : request) :
  let endpoint := normalize (req_pathname req) in
  (forall out fuel fuel',
      resolve_loop fuel st (not_matched endpoint) endpoint [] 0 = Some out ->
      (fuel <= fuel')%nat ->
      resolve_loop fuel' st (not_matched endpoint) endpoint [] 0 = Some out)
  /\ (_checkParamsSupplied st req = None ->
      maxDepth st = Infinity
      /\ forall fuel,
           resolve_loop fuel st (not_matched endpoint) endpoint [] 0 = None).
Proof.
  intros endpoint. split.
  - intros out fuel fuel' Hrun Hle. exact (resolve_loop_mono _ _ _ _ _ _ _ _ Hrun Hle).
  - intros Hnone. destruct (maxDepth st) as [n|] eqn:Em.
    + destruct (_checkParamsSupplied_total st req) as [out Hout];
        [now rewrite Em | congruence].
    + split; [reflexivity |]. intros fuel.
      unfold _checkParamsSupplied, resolve_fuel in Hnone. rewrite Em in Hnone.
      exact (resolve_loop_fuel _ st _ _ _ _ Em (Nat.le_refl _) Hnone fuel).
Qed.

(** X2.  A match is sound and most specific.  On a table whose keys start
    with a slash (every table that [addEndpoints] builds), when resolution
    matches handler [h] with arguments [segs], then [h] is registered at a
    path [Q] such that [Q/segs] is the request path (one trailing slash
    removed), the arguments contain no slash, there are at most [maxDepth] of
    them, and no path between [Q] and the request path is registered. *)
Theorem resolution_sound (st st' : state) (req : request) (h : fn_ref)
    (segs : list string) :
  routes_wf (routes st) ->
  _checkParamsSupplied st req = Some (matched h segs, st') ->
  exists Q,
    routes st !! Q = Some h
    /\ path_join Q segs = normalize (req_pathname req)
    /\ Forall (fun a => slash_free a = true) segs
    /\ depth_le (Z.of_nat (length segs)) (maxDepth st) = true
    /\ (forall j : nat, (0 < j <= length segs)%nat ->
                        routes st !! path_join Q (take j segs) = None).
Proof.
  intros Hwf Hrun. unfold _checkParamsSupplied in Hrun.
  apply resolve_loop_sound in Hrun
    as (Q & h' & segs' & Heq & _ & HQ & Hjoin & Hfree & Hd & Hnone);
    try done.
  rewrite app_nil_r in Heq. unfold matched in Heq.
  injection Heq as -> ->. exists Q. repeat split; done.
Qed.

Lemma resolution_sound_witness :
  exists Q,
    routes (addEndpoints [("users", EObject [("get", EFunction 7%nat)])]
              VUndef initial_state) !! Q = Some 7%nat
    /\ path_join Q ["extra"] = "/users/get/extra".
Proof.
  destruct (resolution_sound
              (addEndpoints [("users", EObject [("get", EFunction 7%nat)])]
                 VUndef initial_state)
              (addEndpoints [("users", EObject [("get", EFunction 7%nat)])]
                 VUndef initial_state)
              (request_for "GET" "/users/get/extra") 7%nat ["extra"])
    as (Q & HQ & Hjoin & _).
  - apply addEndpoints_routes_wf, initial_routes_wf.
  - vm_compute. reflexivity.
  - exists Q. split; [exact HQ | exact Hjoin].
Defined.

(** X3.  An exact match wins: with a depth setting of at least 0 (or
    unbounded), a request whose path (one trailing slash removed) is itself
    registered resolves to that handler with an empty argument list, whatever
    shorter paths are registered. *)
Theorem exact_match_first (st : state) (req : request) (h : fn_ref) :
  depth_le 0 (maxDepth st) = true ->
  routes st !! normalize (req_pathname req) = Some h ->
  _checkParamsSupplied st req = Some (matched h [], st).
Proof.
  intros Hd Hh. unfold _checkParamsSupplied.
  assert (exists n, resolve_fuel st (normalize (req_pathname req)) = S (S n))
    as [n ->].
  { unfold resolve_fuel. destruct (maxDepth st) as [m|].
    - exists (Z.to_nat m). lia.
    - exists (String.length (normalize (req_pathname req))). lia. }
  cbn [resolve_loop rd_ok negb andb]. rewrite Hd, Hh, touch_auth_id.
  reflexivity.
Qed.

Lemma exact_match_first_witness :
  let st := addEndpoints [("users", EObject [("get", EFunction 7%nat)])]
              VUndef initial_state in
  _checkParamsSupplied st (request_for "GET" "/users/get/")
  = Some (matched 7%nat [], st).
Proof.
  intros st. apply (exact_match_first st (request_for "GET" "/users/get/")).
  - vm_compute. reflexivity.
  - vm_compute. reflexivity.
Defined.

(** X4.  A negative depth setting switches routing off: the loop body never
    runs, and every request, a registered path included, gets the 404
    result. *)
Theorem negative_depth_matches_nothing (st : state) (req : request) :
  depth_gt 0 (maxDepth st) = true ->
  _checkParamsSupplied st req
  = Some (not_matched (normalize (req_pathname req)), st).
Proof.
  intros Hd. destruct (maxDepth st) as [n|] eqn:Em; [| discriminate].
  cbn in Hd. apply Z.gtb_lt in Hd.
  apply _checkParamsSupplied_miss; rewrite Em; [reflexivity |].
  intros k Hk%Z.leb_le. lia.
Qed.

Lemma negative_depth_matches_nothing_witness :
  let st := {| routes := {[ "/users/get" := 7%nat ]}; checkAuth := VBool false;
               maxDepth := Finite (-1); debug := false; prettyJson := false;
               fullRequest := false; error_listener := true;
               functions := ∅ |} in
  routes st !! "/users/get" = Some 7%nat
  /\ _checkParamsSupplied st (request_for "GET" "/users/get")
     = Some (not_matched "/users/get", st).
Proof.
  intros st. split; [vm_compute; reflexivity |].
  apply (negative_depth_matches_nothing st (request_for "GET" "/users/get")).
  vm_compute. reflexivity.
Defined.

Lemma ancestor_empty (k : nat) : ancestor k "" = "".
Proof. induction k as [|k IH]; [reflexivity | exact IH]. Qed.

(** X5.  The root path is never served: the request path ["/"] loses its
    slash before the first lookup, and the empty string that remains is not
    a key of any table that [addEndpoints] builds, not even when a handler is
    registered under the empty name (route ["/"]).  With a finite depth the
    request gets the 404 result for the empty path; with an unbounded depth
    the resolution does not return. *)
Theorem root_path_unmatched (st : state) (req : request) :
  routes_wf (routes st) ->
  req_pathname req = "/" ->
  _checkParamsSupplied st req
  = match maxDepth st with
    | Finite _ => Some (not_matched "", st)
    | Infinity => None
    end.
Proof.
  intros Hwf Hp.
  assert (routes st !! "" = None) as Hroot.
  { destruct (routes st !! "") as [h|] eqn:E; [| reflexivity].
    apply Hwf in E. discriminate. }
  destruct (maxDepth st) as [n|] eqn:Em.
  - rewrite _checkParamsSupplied_miss; rewrite Hp;
      change (normalize "/") with ""; [reflexivity | now rewrite Em |].
    intros k _. now rewrite ancestor_empty.
  - unfold _checkParamsSupplied. rewrite Hp. change (normalize "/") with "".
    now apply resolve_loop_never.
Qed.

Lemma root_path_unmatched_witness :
  let st := addEndpoints [("", EFunction 7%nat)] VUndef initial_state in
  routes st !! "/" = Some 7%nat
  /\ _checkParamsSupplied st (request_for "GET" "/") = Some (not_matched "", st).
Proof.
  intros st. split; [vm_compute; reflexivity |].
  apply (root_path_unmatched st (request_for "GET" "/")).
  - apply addEndpoints_routes_wf, initial_routes_wf.
  - reflexivity.
Defined.

(** ** Registration *)

Lemma insert_all_app (l1 l2 : list (string * fn_ref)) (m : gmap string fn_ref) :
  insert_all (l1 ++ l2) m = insert_all l2 (insert_all l1 m).
Proof. unfold insert_all. apply fold_left_app. Qed.

Lemma flatten_cons (stack : list string) (k : string) (dk : endpoints)
    (rest : list (string * endpoints)) :
  flatten stack (EObject ((k, dk) :: rest))
  = match dk with
    | EFunction f => [(route_key (stack ++ [k]), f)]
    | EObject _ => flatten (stack ++ [k]) dk
    | EOther => []
    end ++ flatten stack (EObject rest).
Proof. reflexivity. Qed.

Lemma register_routes (extra : value) (stack : list string) (g : fn_ref)
    (st : state) :
  routes (register extra stack g st) = <[ route_key stack := g ]> (routes st).
Proof.
  unfold register. now destruct (truthy (js_and extra (get extra "auth"))).
Qed.

Lemma _r_routes (extra : value) (d : endpoints) :
  forall (stack : list string) (st : state),
    routes (_r extra stack d st) = insert_all (flatten stack d) (routes st).
Proof.
  induction d as [g | | entries IH] using endpoints_nested_ind;
    intros stack st; try reflexivity.
  revert st. induction IH as [| [k dk] rest Hdk _ IHrest]; intros st;
    [reflexivity |].
  rewrite _r_cons, IHrest, flatten_cons, insert_all_app. cbn [snd] in Hdk.
  f_equal. destruct dk as [g | sub |].
  - apply register_routes.
  - apply Hdk.
  - reflexivity.
Qed.

(** X6.  Registration flattens the nested dict: the table after
    [addEndpoints(route, extra)] is the table before with the routes of
    [route] written into it one after the other, each function under the
    slash-joined path of its keys, in enumeration order; [extra] has no
    influence on the table. *)
Theorem addEndpoints_flattens (route : list (string * endpoints))
    (extra : value) (st : state) :
  routes (addEndpoints route extra st)
  = insert_all (flatten [] (EObject route)) (routes st).
Proof. apply _r_routes. Qed.

Lemma insert_all_notin (l : list (string * fn_ref)) :
  forall (m : gmap string fn_ref) (k : string),
    k ∉ l.*1 -> insert_all l m !! k = m !! k.
Proof.
  induction l as [| [k' f] l IH]; intros m k Hk; [reflexivity |].
  cbn [fmap list_fmap fst] in Hk. apply not_elem_of_cons in Hk as [Hne Hk].
  unfold insert_all in *. cbn [fold_left fst snd].
  rewrite IH by exact Hk. now apply lookup_insert_ne.
Qed.

Lemma insert_all_last (l1 l2 : list (string * fn_ref)) (k : string)
    (f : fn_ref) (m : gmap string fn_ref) :
  k ∉ l2.*1 -> insert_all (l1 ++ (k, f) :: l2) m !! k = Some f.
Proof.
  intros Hk. rewrite insert_all_app.
  change (insert_all ((k, f) :: l2) (insert_all l1 m))
    with (insert_all l2 (<[k := f]> (insert_all l1 m))).
  rewrite insert_all_notin by exact Hk. apply lookup_insert_eq.
Qed.

Lemma insert_all_keeps (l : list (string * fn_ref)) :
  forall (m : gmap string fn_ref) (k : string),
    is_Some (m !! k) -> is_Some (insert_all l m !! k).
Proof.
  induction l as [| [k' f] l IH]; intros m k Hk; [exact Hk |].
  unfold insert_all in *. cbn [fold_left fst snd]. apply IH.
  rewrite lookup_insert. case_decide; [eauto | exact Hk].
Qed.

(** X7.  What one registration does to the table: a path that the call does
    not write keeps its handler; a path that was routed stays routed (no
    route is ever removed); and when the call writes a path more than once,
    the last write wins. *)
Theorem addEndpoints_lookup (route : list (string * endpoints))
    (extra : value) (st : state) (k : string) :
  (k ∉ (flatten [] (EObject route)).*1 ->
     routes (addEndpoints route extra st) !! k = routes st !! k)
  /\ (is_Some (routes st !! k) ->
      is_Some (routes (addEndpoints route extra st) !! k))
  /\ (forall l1 l2 f,
        flatten [] (EObject route) = l1 ++ (k, f) :: l2 ->
        k ∉ l2.*1 ->
        routes (addEndpoints route extra st) !! k = Some f).
Proof.
  unfold addEndpoints. rewrite _r_routes. repeat split.
  - apply insert_all_notin.
  - apply insert_all_keeps.
  - intros l1 l2 f -> Hk. now apply insert_all_last.
Qed.

Lemma addEndpoints_lookup_witness :
  let st := addEndpoints [("users", EObject [("get", EFunction 7%nat)])]
              VUndef initial_state in
  routes (addEndpoints [("date", EFunction 8%nat)] VUndef st) !! "/users/get"
  = Some 7%nat.
Proof.
  intros st.
  refine (eq_trans
            (proj1 (addEndpoints_lookup [("date", EFunction 8%nat)] VUndef st
                      "/users/get") _) _).
  - vm_compute. intros Hin. apply elem_of_cons in Hin as [Hin | Hin];
      [discriminate | now apply elem_of_nil in Hin].
  - vm_compute. reflexivity.
Defined.

Lemma leaf_in_flatten (f : fn_ref) (d : endpoints) :
  forall stack : list string,
    leaf_in f d = true <-> f ∈ (flatten stack d).*2.
Proof.
  induction d as [g | | entries IH] using endpoints_nested_ind; intros stack.
  - simpl. split; [discriminate | intros Hin; now apply elem_of_nil in Hin].
  - simpl. split; [discriminate | intros Hin; now apply elem_of_nil in Hin].
  - induction IH as [| [k dk] rest Hdk _ IHrest].
    + simpl. split; [discriminate | intros Hin; now apply elem_of_nil in Hin].
    + rewrite leaf_in_cons, flatten_cons, fmap_app, elem_of_app, orb_true_iff.
      rewrite IHrest. cbn [snd] in Hdk.
      destruct dk as [g | sub |].
      * cbn [fmap list_fmap snd]. rewrite list_elem_of_singleton.
        rewrite bool_decide_eq_true. split; intros [->|?]; auto.
      * now rewrite (Hdk (stack ++ [k])).
      * cbn [fmap list_fmap]. rewrite elem_of_nil.
        split; intros [?|?]; try done; auto.
Qed.

(** X8.  What one registration does to the function objects.  With a falsy
    [extra] or [extra.auth] (absent, [false], [null], 0, empty) the store is
    left exactly as it was: [auth: false] is not attached.  With a truthy
    [extra.auth], every function that the call routes gets that value as its
    [auth] property, a previous override being replaced, and every other
    function object is left as it was. *)
Theorem addEndpoints_auth_effect (route : list (string * endpoints))
    (extra : value) (st : state) :
  (truthy (js_and extra (get extra "auth")) = false ->
     functions (addEndpoints route extra st) = functions st)
  /\ (truthy (js_and extra (get extra "auth")) = true ->
      forall f o,
        functions st !! f = Some o ->
        functions (addEndpoints route extra st) !! f
        = Some (if bool_decide (f ∈ (flatten [] (EObject route)).*2)
                then with_auth o (get extra "auth") else o)).
Proof.
  split.
  - intros Hf. apply map_eq. intros f.
    rewrite addEndpoints_functions. unfold sets_auth. cbn [fst snd].
    rewrite Hf. now destruct (functions st !! f).
  - intros Ht f o Ho.
    rewrite addEndpoints_functions, Ho. unfold sets_auth. cbn [fst snd].
    rewrite Ht. cbn [andb fmap option_fmap option_map]. f_equal.
    destruct (leaf_in f (EObject route)) eqn:E.
    + apply (leaf_in_flatten f _ []) in E.
      now rewrite bool_decide_eq_true_2.
    + rewrite bool_decide_eq_false_2; [reflexivity |].
      intros Hin. apply (leaf_in_flatten f _ []) in Hin. congruence.
Qed.

Lemma addEndpoints_auth_effect_witness :
  functions (addEndpoints [("users", EObject [("get", EFunction 1%nat)])]
               (VObj [("auth", VBool false)]) sample_state)
  = functions sample_state.
Proof.
  apply (addEndpoints_auth_effect
           [("users", EObject [("get", EFunction 1%nat)])]
           (VObj [("auth", VBool false)]) sample_state).
  reflexivity.
Defined.

Lemma slash_free_with_slash (q a : string) :
  slash_free (q +:+ "/" +:+ a) = false.
Proof.
  induction q as [|c q IH]; [reflexivity |].
  rewrite append_cons. cbn [slash_free]. rewrite IH. apply andb_false_r.
Qed.

Lemma segment_head_inj (a b x y : string) :
  slash_free a = true -> slash_free b = true ->
  a +:+ "/" +:+ x = b +:+ "/" +:+ y -> a = b /\ x = y.
Proof.
  revert b. induction a as [|c a IH]; intros [|c' b] Ha Hb Heq.
  - change (String slash x = String slash y) in Heq.
    injection Heq as ->. now split.
  - change (String slash x = String c' (b +:+ "/" +:+ y)) in Heq.
    injection Heq as <- _. discriminate Hb.
  - change (String c (a +:+ "/" +:+ x) = String slash y) in Heq.
    injection Heq as -> _. discriminate Ha.
  - change (String c (a +:+ "/" +:+ x) = String c' (b +:+ "/" +:+ y)) in Heq.
    injection Heq as -> Heq.
    cbn [slash_free] in Ha, Hb.
    apply andb_prop in Ha as [_ Ha]. apply andb_prop in Hb as [_ Hb].
    destruct (IH b Ha Hb Heq) as [-> ->]. now split.
Qed.

Lemma join_inj (l1 : list string) :
  forall l2 : list string,
    l1 <> [] -> l2 <> [] ->
    Forall (fun a => slash_free a = true) l1 ->
    Forall (fun a => slash_free a = true) l2 ->
    join "/" l1 = join "/" l2 -> l1 = l2.
Proof.
  induction l1 as [|a l1 IH]; intros [|b l2] H1 H2 F1 F2 Heq; try congruence.
  apply Forall_cons in F1 as [Ha F1]. apply Forall_cons in F2 as [Hb F2].
  destruct l1 as [|a2 l1], l2 as [|b2 l2].
  - simpl in Heq. now subst.
  - change (a = b +:+ "/" +:+ join "/" (b2 :: l2)) in Heq.
    rewrite Heq, slash_free_with_slash in Ha. discriminate.
  - change (a +:+ "/" +:+ join "/" (a2 :: l1) = b) in Heq.
    rewrite <- Heq, slash_free_with_slash in Hb. discriminate.
  - change (a +:+ "/" +:+ join "/" (a2 :: l1)
            = b +:+ "/" +:+ join "/" (b2 :: l2)) in Heq.
    apply segment_head_inj in Heq as [-> Heq]; try assumption.
    f_equal. apply IH; try assumption; discriminate.
Qed.

(** X9.  Distinct key paths get distinct routes as long as no key contains a
    slash: for two non-empty paths of slash-free keys, equal route keys mean
    equal paths.  (A key with a slash can collide: the key ["a/b"] and the
    nested keys ["a"], ["b"] both give ["/a/b"].) *)
Theorem route_key_injective (stack1 stack2 : list string) :
  stack1 <> [] -> stack2 <> [] ->
  Forall (fun a => slash_free a = true) stack1 ->
  Forall (fun a => slash_free a = true) stack2 ->
  route_key stack1 = route_key stack2 -> stack1 = stack2.
Proof.
  intros H1 H2 F1 F2 Heq. unfold route_key in Heq.
  change (String slash (join "/" stack1) = String slash (join "/" stack2))
    in Heq.
  injection Heq as Heq. now apply join_inj.
Qed.

Lemma route_key_injective_witness :
  route_key (["users"] ++ ["get"]) = "/users/get"
  /\ ["users"] ++ ["get"] = ["users"; "get"].
Proof.
  split; [reflexivity |].
  apply (route_key_injective (["users"] ++ ["get"]) ["users"; "get"]).
  - discriminate.
  - discriminate.
  - repeat constructor.
  - repeat constructor.
  - reflexivity.
Defined.

Example route_key_collision : route_key ["a/b"] = route_key ["a"; "b"].
Proof. reflexivity. Qed.

(** ** Authorization *)

Section Authorization.

Context `{Runtime}.

Lemma bind_unit {A} (m : M ()) (v : A) (h : list event) :
  ((m ;; ret v) ;; ret ()) h = m h.
Proof.
  unfold bind, ret. destruct (m h) as [t [[] | e |]]; [| reflexivity ..].
  now rewrite !app_nil_r.
Qed.

(** X10.  [authByJson] turns a credential check that returns its verdict
    into a global auth function that hands the verdict to the callback: for
    a handler without an override the decision is exactly one synchronous
    call of the callback with [auth_function(user, pass)].  The wrapper is a
    new function object: the function objects and routes that exist are left
    as they are. *)
Theorem authByJson_decides (auth_function : value -> value -> value)
    (st : state) :
  (forall (details : value * value) (cb : value -> M ()) (hist : list event),
      _checkAuthDetails (authByJson auth_function st) VUndef details cb hist
      = cb (auth_function (fst details) (snd details)) hist)
  /\ (forall f o, functions st !! f = Some o ->
                  functions (authByJson auth_function st) !! f = Some o)
  /\ routes (authByJson auth_function st) = routes st.
Proof.
  split; [| split; [| reflexivity]].
  - intros details cb hist. unfold _checkAuthDetails, authByJson, auth.
    cbn [truthy is_false checkAuth with_checkAuth call_auth].
    unfold fn_of. cbn [functions with_checkAuth with_functions].
    rewrite lookup_insert_eq. cbn [default authByJson_wrapper fn_authfn run_script].
    apply bind_unit.
  - intros f o Ho. unfold authByJson, auth.
    cbn [functions with_checkAuth with_functions].
    rewrite lookup_insert_ne; [exact Ho |].
    intros Heq. pose proof (is_fresh (dom (functions st))) as Hfresh.
    rewrite Heq in Hfresh. apply Hfresh, elem_of_dom. eauto.
Qed.

End Authorization.
(** ** The request pipeline *)

Section Pipeline.

Context `{Runtime}.

Lemma parsed_pathname (req : request) :
  req_pathname (parsed req) = req_pathname req.
Proof. unfold parsed. now destruct (String.eqb _ _). Qed.

Lemma _checkParamsSupplied_parsed (st : state) (req : request) :
  _checkParamsSupplied st (parsed req) = _checkParamsSupplied st req.
Proof. unfold _checkParamsSupplied. now rewrite parsed_pathname. Qed.

Lemma on_middleware_done_parsed (st : state) (req : request) (res : value) :
  on_middleware_done st req res
  = match _checkParamsSupplied st req with
    | None => hang
    | Some (responseData, st) =>
        if negb (rd_ok responseData) then
          _writeResponse st res (not_found_body responseData) VUndef
        else
          match rd_handler responseData with
          | None => throw (TypeError "Cannot read property 'auth' of undefined")
          | Some handler =>
              _checkAuthDetails st (fn_auth (fn_of st handler))
                (req_user req, req_pass req)
                (on_auth st handler
                   (with_args (parsed req) (default [] (rd_args responseData)))
                   res)
          end
    end.
Proof.
  unfold on_middleware_done. fold (parsed req).
  rewrite _checkParamsSupplied_parsed.
  destruct (_checkParamsSupplied st req) as [[rd st'] |]; [| reflexivity].
  destruct (negb (rd_ok rd)); [reflexivity |].
  destruct (rd_handler rd); [| reflexivity].
  unfold parsed. now destruct (String.eqb _ _).
Qed.

Lemma valid_status_text_app (a b : string) :
  valid_status_text (a +:+ b) = valid_status_text a && valid_status_text b.
Proof.
  induction a as [|c a IH]; [reflexivity |].
  rewrite append_cons. cbn [valid_status_text]. now rewrite IH, andb_assoc.
Qed.

(** X11.  An unmatched request is answered at once with the 404 envelope:
    status code 404, the error message (["No endpoint "] and the path, one
    trailing slash removed) as the HTTP status text and as [error] in the
    body, the three standard headers, and no timer armed, whatever the auth
    settings are.  This is the response handed to the writer; it is written
    when the head of the response is not out yet and the path is a status
    text that Node accepts. *)
Theorem not_found_reply (st : state) (req : request) (r : sink)
    (hist : list event) :
  bounded (maxDepth st) (normalize (req_pathname req)) = true ->
  (forall k : nat, depth_le (Z.of_nat k) (maxDepth st) = true ->
     routes st !! ancestor k (normalize (req_pathname req)) = None) ->
  on_middleware_done st req (VRes r) hist
  = written st r (VNum 404)
      (VStr ("No endpoint " +:+ normalize (req_pathname req)))
      base_headers
      (VObj [("ok", VBool false); ("code", VNum 404);
             ("error", VStr ("No endpoint " +:+ normalize (req_pathname req)))])
      hist
  /\ (headers_sent r hist = false ->
      valid_status_text (normalize (req_pathname req)) = true ->
      on_middleware_done st req (VRes r) hist
      = (response st r (VNum 404)
           (VStr ("No endpoint " +:+ normalize (req_pathname req)))
           base_headers
           (VObj [("ok", VBool false); ("code", VNum 404);
                  ("error",
                   VStr ("No endpoint " +:+ normalize (req_pathname req)))]),
         Normal ())).
Proof.
  intros Hb Hmiss.
  assert (on_middleware_done st req (VRes r) hist
          = written st r (VNum 404)
              (VStr ("No endpoint " +:+ normalize (req_pathname req)))
              base_headers
              (VObj [("ok", VBool false); ("code", VNum 404);
                     ("error",
                      VStr ("No endpoint " +:+ normalize (req_pathname req)))])
              hist) as Heq.
  { rewrite on_middleware_done_parsed.
    rewrite (_checkParamsSupplied_miss st req Hb Hmiss).
    cbn [rd_ok not_matched negb]. rewrite _writeResponse_res.
    unfold serialized, status_code, status_text. cbn.
    rewrite andb_false_r. reflexivity. }
  split; [exact Heq |].
  intros Hh Hv. rewrite Heq. apply written_accepted; [exact Hh | lia |].
  rewrite valid_status_text_app, Hv. reflexivity.
Qed.

Lemma on_auth_falsy (st : state) (h : fn_ref) (req : request) (r : sink)
    (v : value) (hist : list event) :
  truthy v = false ->
  on_auth st h req (VRes r) v hist
  = written st r (VNum 401) (VStr "Auth failed")
      (base_headers ++ [auth_hint]) auth_failed_body hist.
Proof.
  intros Hv. unfold on_auth. rewrite Hv. cbn [negb].
  rewrite _writeResponse_res. unfold serialized, status_code, status_text.
  cbn. rewrite andb_false_r. reflexivity.
Qed.

Lemma on_auth_truthy (st : state) (h : fn_ref) (req : request) (res : value)
    (v : value) (hist : list event) :
  truthy v = true ->
  on_auth st h req res v hist = ([ESetTimeout h req res], Normal ()).
Proof. intros Hv. unfold on_auth. now rewrite Hv. Qed.

Lemma written_401 (st : state) (r : sink) (header : list (string * string))
    (body : value) (hist : list event) :
  written st r (VNum 401) (VStr "Auth failed") header body hist
  = if headers_sent r hist
    then (announced st (VNum 401) body, Thrown headers_sent_error)
    else (response st r (VNum 401) (VStr "Auth failed") header body,
          Normal ()).
Proof.
  unfold written. destruct (headers_sent r hist); [reflexivity |].
  now rewrite head_check_accepts.
Qed.

(** X12.  The verdict handed to the auth callback is read by truthiness.  A
    truthy verdict arms exactly one zero-delay timer for the handler and
    writes nothing.  A falsy verdict arms no timer and answers with the 401
    envelope, with "Auth failed" as status text and the WWW-Authenticate
    header next to the three standard ones; when the head of the response is
    already out, the 401 is announced on the log and [res.writeHead]
    throws. *)
Theorem auth_verdict (st : state) (h : fn_ref) (req : request) (r : sink)
    (v : value) (hist : list event) :
  on_auth st h req (VRes r) v hist
  = if truthy v
    then ([ESetTimeout h req (VRes r)], Normal ())
    else if headers_sent r hist
    then (announced st (VNum 401)
            (VObj [("code", VNum 401); ("ok", VBool false);
                   ("error", VStr "Auth failed")]),
          Thrown headers_sent_error)
    else (response st r (VNum 401) (VStr "Auth failed")
            (base_headers ++ [auth_hint])
            (VObj [("code", VNum 401); ("ok", VBool false);
                   ("error", VStr "Auth failed")]), Normal ()).
Proof.
  destruct (truthy v) eqn:E; [now apply on_auth_truthy |].
  rewrite on_auth_falsy by exact E. apply written_401.
Qed.

(** *** One response per response object *)

Lemma timers_app (t t' : list event) :
  timers (t ++ t') = (timers t + timers t')%nat.
Proof. induction t as [|[] t IH]; simpl; rewrite ?IH; reflexivity. Qed.

Lemma only_sink_app (r : sink) (t t' : list event) :
  only_sink r t -> only_sink r t' -> only_sink r (t ++ t').
Proof. intros. now apply Forall_app. Qed.

Lemma only_sink_response (st : state) (r : sink) (code statusMsg : value)
    (header : list (string * string)) (body : value) :
  only_sink r (response st r code statusMsg header body).
Proof.
  unfold only_sink, response.
  repeat (apply Forall_cons_2; [simpl; auto |]). apply Forall_nil_2.
Qed.

Lemma only_sink_announced (st : state) (r : sink) (code body : value) :
  only_sink r (announced st code body).
Proof.
  unfold only_sink, announced.
  apply Forall_cons_2; [simpl; auto |]. apply Forall_nil_2.
Qed.

(** A trace without a response does not send a head; a trace on [r] with a
    response sends the head of [r]. *)
Lemma writes_none_not_sent (r : sink) (t : list event) :
  writes t = 0%nat -> headers_sent r t = false.
Proof.
  induction t as [|ev t IH]; [reflexivity |].
  destruct ev; cbn [writes]; try discriminate; intros Hw; cbn; now apply IH.
Qed.

Lemma only_sink_writes_sent (r : sink) (t : list event) :
  only_sink r t -> (0 < writes t)%nat -> headers_sent r t = true.
Proof.
  induction t as [|ev t IH]; cbn [writes]; [lia |].
  intros Hs Hw. apply Forall_cons in Hs as [Hev Hs].
  destruct ev; cbn [writes] in Hw; cbn; try (now apply IH).
  destruct Hev as [Hev | Hev]; [discriminate |].
  injection Hev as ->. now rewrite bool_decide_eq_true_2.
Qed.

Lemma quota_nil (r : sink) (h : list event) : quota r h [].
Proof. split; [constructor | simpl; lia]. Qed.

Lemma quota_silent (r : sink) (h t : list event) :
  only_sink r t -> writes t = 0%nat -> quota r h t.
Proof. intros Hs Hw. split; [exact Hs | rewrite Hw; lia]. Qed.

Lemma quota_app (r : sink) (h t t' : list event) :
  quota r h t -> quota r (h ++ t) t' -> quota r h (t ++ t').
Proof.
  intros [Hs Hw] [Hs' Hw']. split; [now apply only_sink_app |].
  rewrite writes_app. rewrite headers_sent_app in Hw'.
  destruct (headers_sent r h); cbn [orb] in Hw'; [lia |].
  destruct (writes t) as [|n] eqn:Ht.
  - rewrite (writes_none_not_sent r t Ht) in Hw'. lia.
  - rewrite (only_sink_writes_sent r t Hs) in Hw' by lia. lia.
Qed.

Lemma quota_written (st : state) (r : sink) (code statusMsg : value)
    (header : list (string * string)) (body : value) (h : list event) :
  quota r h (fst (written st r code statusMsg header body h)).
Proof.
  unfold written.
  destruct (headers_sent r h) eqn:Hh; cbn [fst].
  - split; [apply only_sink_announced | rewrite Hh; simpl; lia].
  - destruct (head_check code statusMsg); cbn [fst];
      (split; [| rewrite Hh; simpl; lia]);
      [apply only_sink_announced | apply only_sink_response].
Qed.

Lemma quota_faulted (st : state) (r : sink) (e : value) (h : list event) :
  quota r h (fst (faulted st r e h)).
Proof.
  unfold faulted.
  pose proof (quota_written st r (VNum 500) (VStr (fault_text st e))
                base_headers (fault_body st e) (h ++ [fault_warning e])) as Hq.
  destruct (written _ _ _ _ _ _ _) as [t o]. cbn [fst] in *.
  change (fault_warning e :: t) with ([fault_warning e] ++ t).
  apply quota_app; [| exact Hq].
  apply quota_silent; [| reflexivity].
  apply Forall_cons_2; [now left | apply Forall_nil_2].
Qed.

Lemma quota_on_auth (st : state) (h : fn_ref) (req : request) (r : sink)
    (v : value) (hist : list event) :
  quota r hist (fst (on_auth st h req (VRes r) v hist)).
Proof.
  destruct (truthy v) eqn:Ev.
  - rewrite on_auth_truthy by exact Ev. apply quota_silent; [| reflexivity].
    apply Forall_cons_2; [now left | apply Forall_nil_2].
  - rewrite on_auth_falsy by exact Ev. apply quota_written.
Qed.

Lemma quota_completion (st : state) (r : sink) (a : value * value * value)
    (hist : list event) :
  quota r hist (fst (completion st (VRes r) a hist)).
Proof.
  destruct a as [[err result] extra]. rewrite completion_cases.
  destruct (truthy err && is_nullish extra) eqn:E.
  - apply andb_prop in E as [_ E].
    destruct extra; try discriminate; apply quota_nil.
  - rewrite _writeResponse_res. apply quota_written.
Qed.

(** A user function that fires a callback any number of times stays within
    the quota if every firing does. *)
Lemma quota_run_script {A} (cb : A -> M ()) (r : sink) (s : script A) :
  (forall a hist, quota r hist (fst (cb a hist))) ->
  forall hist, quota r hist (fst (run_script cb s hist)).
Proof.
  intros Hcb. induction s as [v | e | a k IH]; intros hist; cbn [run_script];
    [apply quota_nil | apply quota_nil |].
  unfold bind. pose proof (Hcb a hist) as Ha.
  destruct (cb a hist) as [t [[] | e |]]; cbn [fst] in *; try exact Ha.
  pose proof (IH (hist ++ t)) as Hk.
  destruct (run_script cb k (hist ++ t)) as [t' o]. cbn [fst] in *.
  now apply quota_app.
Qed.

Lemma bind_ret_unit {A} (m : M A) (hist : list event) :
  fst ((m ;; ret ()) hist) = fst (m hist).
Proof.
  unfold bind, ret. destruct (m hist) as [t [a | e |]]; cbn [fst];
    [now rewrite app_nil_r | reflexivity ..].
Qed.

(** What the firings of the auth callback add up to. *)
Lemma run_on_auth_counts (st : state) (h : fn_ref) (req : request) (r : sink)
    (s : script value) :
  forall hist : list event,
    let t := fst (run_script (on_auth st h req (VRes r)) s hist) in
    (timers t + writes t <= fires s)%nat
    /\ (approves s = true -> timers t = fires s /\ writes t = 0%nat).
Proof.
  induction s as [v | e | v k IH]; intros hist; cbn [run_script fires approves];
    [cbn; split; [lia | now split] ..|].
  unfold bind.
  destruct (truthy v) eqn:Ev;
    [rewrite on_auth_truthy by exact Ev
    | rewrite on_auth_falsy, written_401 by exact Ev].
  - specialize (IH (hist ++ [ESetTimeout h req (VRes r)])).
    destruct (run_script _ k _) as [t' o]. cbn [fst andb] in *.
    destruct IH as [IH1 IH2]. split; [simpl; lia |].
    intros Hk. destruct (IH2 Hk) as [Ht Hw]. split; simpl; lia.
  - cbn [andb]. destruct (headers_sent r hist).
    + cbn. split; [lia | discriminate].
    + specialize (IH (hist ++ response st r (VNum 401) (VStr "Auth failed")
                              (base_headers ++ [auth_hint])
                              (VObj [("code", VNum 401); ("ok", VBool false);
                                     ("error", VStr "Auth failed")]))).
      destruct (run_script _ k _) as [t' o]. cbn [fst] in *.
      destruct IH as [IH1 _]. split; [| discriminate].
      rewrite timers_app, writes_app. cbn [timers writes response]. lia.
Qed.

(** X13.  The dispatcher does not count the firings of the auth callback.
    When a function decides (as handler override, or as global auth function
    for a handler without override) and fires the callback before it
    returns, every firing with a truthy verdict arms
    one timer, so an auth function whose verdicts are all truthy has the
    handler scheduled once per firing, and one that never fires the callback
    leaves the request without any response.  A falsy verdict answers 401
    when the head of the response is not out yet; after that
    [res.writeHead] throws, so at most one response is written (none when
    the head was out before), every response event is on the response object
    of the request, and the timers and responses together are at most as
    many as the firings. *)
Theorem auth_firings (st : state) (h f : fn_ref) (req : request) (r : sink)
    (override : value) (details : value * value) (hist : list event) :
  override = VFun f \/ (override = VUndef /\ checkAuth st = VFun f) ->
  let s := fn_authfn (fn_of st f) (fst details) (snd details) in
  let t := fst (_checkAuthDetails st override details
                  (on_auth st h req (VRes r)) hist) in
  (timers t + writes t <= fires s)%nat
  /\ quota r hist t
  /\ (approves s = true -> timers t = fires s /\ writes t = 0%nat).
Proof.
  intros Hf s t.
  assert (t = fst (run_script (on_auth st h req (VRes r)) s hist)) as ->.
  { assert (_checkAuthDetails st override details (on_auth st h req (VRes r))
            = (run_script (on_auth st h req (VRes r)) s ;; ret ())) as Hd.
    { unfold _checkAuthDetails. destruct Hf as [-> | [-> Hg]];
        [reflexivity | rewrite Hg; reflexivity]. }
    subst t. rewrite Hd. apply bind_ret_unit. }
  destruct (run_on_auth_counts st h req r s hist) as [Hc Ha].
  split; [exact Hc |]. split; [| exact Ha].
  apply quota_run_script. intros a hist'. apply quota_on_auth.
Qed.

(** X14.  Handler invocation is contained in its response object: whatever
    the handler does (return, throw, fire its callback any number of times,
    with arguments on which the callback faults or the writer throws), every
    response event of the function armed by the timer is on the response
    object of its own request, and it writes at most one response: none when
    the head of that response is already out. *)
Theorem invoke_handler_contained (st : state) (h : fn_ref) (req : request)
    (r : sink) (hist : list event) :
  let t := fst (invoke_handler st h req (VRes r) hist) in
  only_sink r t
  /\ (writes t <= 1)%nat
  /\ (headers_sent r hist = true -> writes t = 0%nat).
Proof.
  intros t.
  assert (quota r hist t) as [Hs Hw].
  { subst t. rewrite invoke_handler_catch. unfold try_catch.
    set (s := fn_handler (fn_of st h) (_getRequestData st req)).
    match goal with
    | |- context [match ?m hist with _ => _ end] =>
        assert (quota r hist (fst (m hist))) as Hbody
    end.
    { destruct (2 <=? fn_length (fn_of st h))%nat.
      - rewrite bind_ret_unit. apply quota_run_script.
        intros a hist'. apply quota_completion.
      - unfold bind. destruct s as [v | e | a k]; cbn [run_script].
        + unfold ret. rewrite app_nil_r, _writeResponse_res.
          pose proof (quota_written st r (status_code st v VUndef)
                        (status_text st v VUndef) (_getHeaders (payload st v))
                        (serialized st v VUndef) hist) as Hq.
          now destruct (written _ _ _ _ _ _ _).
        + apply quota_nil.
        + apply quota_nil. }
    match goal with
    | |- context [match ?m hist with _ => _ end] =>
        destruct (m hist) as [t0 [[] | e |]]
    end; cbn [fst] in *; try exact Hbody.
    rewrite on_fault_res.
    pose proof (quota_faulted st r e (hist ++ t0)) as Hq.
    destruct (faulted st r e (hist ++ t0)) as [t' o]. cbn [fst] in *.
    now apply quota_app. }
  split; [exact Hs |]. split.
  - destruct (headers_sent r hist); lia.
  - intros Hh. rewrite Hh in Hw. lia.
Qed.

(** X21.  The dispatcher does not guard the completion callback against a
    second firing.  For a handler of two or more parameters that fires its
    callback twice before it returns, with arguments on which the callback
    does not fault, and that does not catch what the callback throws: the
    first firing writes its response; the second hands another response to
    the writer, which throws because the head is out; the exception passes
    through the handler into the catch block, whose 500 is refused in the
    same way, and leaves the timer function.  The client gets the first
    response only. *)
Theorem second_completion_refused (st : state) (h : fn_ref) (req : request)
    (r : sink) (hist : list event) (err1 result1 extra1 : value)
    (err2 result2 extra2 : value) (k : script (value * value * value)) :
  (2 <= fn_length (fn_of st h))%nat ->
  fn_handler (fn_of st h) (_getRequestData st req)
  = Callback (err1, result1, extra1) (Callback (err2, result2, extra2) k) ->
  truthy err1 && is_nullish extra1 = false ->
  truthy err2 && is_nullish extra2 = false ->
  headers_sent r hist = false ->
  head_check (status_code st result1 (completion_extra err1 extra1))
    (status_text st result1 (completion_extra err1 extra1)) = None ->
  invoke_handler st h req (VRes r) hist
  = (response st r (status_code st result1 (completion_extra err1 extra1))
       (status_text st result1 (completion_extra err1 extra1))
       (_getHeaders (payload st result1))
       (serialized st result1 (completion_extra err1 extra1))
     ++ announced st (status_code st result2 (completion_extra err2 extra2))
          (serialized st result2 (completion_extra err2 extra2))
     ++ fault_refused st headers_sent_error,
     Thrown headers_sent_error).
Proof.
  intros Hlen Hs Hok1 Hok2 Hh Hc. apply Nat.leb_le in Hlen.
  rewrite invoke_handler_catch, Hlen, Hs.
  set (t1 := response st r (status_code st result1 (completion_extra err1 extra1))
               (status_text st result1 (completion_extra err1 extra1))
               (_getHeaders (payload st result1))
               (serialized st result1 (completion_extra err1 extra1))).
  set (t2 := announced st (status_code st result2 (completion_extra err2 extra2))
               (serialized st result2 (completion_extra err2 extra2))).
  assert (headers_sent r (hist ++ t1) = true) as Hsent.
  { rewrite headers_sent_app. subst t1.
    rewrite headers_sent_response. apply orb_true_r. }
  rewrite (try_catch_thrown _ _ hist (t1 ++ t2) headers_sent_error).
  - rewrite on_fault_res, faulted_sent.
    + now rewrite <- app_assoc.
    + rewrite app_assoc, headers_sent_app, Hsent. reflexivity.
  - apply bind_thrown. cbn [run_script].
    rewrite (bind_normal _ _ hist t1 ()).
    + rewrite (bind_thrown _ _ (hist ++ t1) t2 headers_sent_error);
        [reflexivity |].
      rewrite completion_cases, Hok2, _writeResponse_res.
      now apply written_sent.
    + rewrite completion_cases, Hok1, _writeResponse_res. unfold written.
      now rewrite Hh, Hc.
Qed.

Lemma get_prop_present (v : value) (k : string) :
  is_nullish v = false -> get_prop v k = ret (get v k).
Proof. now destruct v. Qed.

(** The outer [catch] for a thrown value that has properties, with a
    listener for 'error'. *)
Lemma outer_catch_reply (st : state) (r : sink) (e : value)
    (hist : list event) :
  is_nullish e = false ->
  error_listener st = true ->
  (stack <- get_prop e "stack" ;;
   emit st "error" "Uncaught exception" (VObj [("e", e); ("stack", stack)]) ;;
   _writeResponse st (VRes r) (error_envelope st e) (VObj [("e", e)])) hist
  = let logged := EEmit "error" "Uncaught exception"
                    (VObj [("e", e); ("stack", get e "stack")]) in
    let '(t, o) := written st r (VNum 500) (VStr (fault_text st e))
                     base_headers (fault_body st e) (hist ++ [logged]) in
    (logged :: t, o).
Proof.
  intros He Hl. rewrite (get_prop_present e "stack" He), bind_ret.
  unfold emit. rewrite Hl. cbn [String.eqb Ascii.eqb Bool.eqb negb andb].
  rewrite bind_tell, _writeResponse_res.
  destruct (fault_status st e) as (-> & -> & -> & ->). reflexivity.
Qed.

(** X15.  The outer catch of the request listener: when the middleware chain
    (with the routing and authorization it runs into) throws a value [e]
    that is neither [undefined] nor [null], and the logger has a listener for
    'error', the exception is logged as an error with its stack, and the same
    500 envelope as for a handler fault is handed to the writer.  When the
    head of the response is not out yet and the string form of [e] is a
    status text that Node accepts, the 500 is written and the listener ends
    normally; otherwise [res.writeHead] throws and the exception leaves the
    listener. *)
Theorem dispatch_fault_reply (st : state) (steps : list middleware_step)
    (req : request) (r : sink) (hist t : list event) (e : value) :
  middleware_run steps req (VRes r)
    (fun req => on_middleware_done st req (VRes r)) hist = (t, Thrown e) ->
  is_nullish e = false ->
  error_listener st = true ->
  let logged := EEmit "error" "Uncaught exception"
                  (VObj [("e", e); ("stack", get e "stack")]) in
  _process st steps req (VRes r) hist
  = (t ++ logged
       :: fst (written st r (VNum 500) (VStr (fault_text st e)) base_headers
                 (fault_body st e) (hist ++ t ++ [logged])),
     snd (written st r (VNum 500) (VStr (fault_text st e)) base_headers
            (fault_body st e) (hist ++ t ++ [logged])))
  /\ (headers_sent r (hist ++ t) = false ->
      valid_status_text (fault_text st e) = true ->
      _process st steps req (VRes r) hist
      = (t ++ logged
           :: response st r (VNum 500)
                (js_or (VStr (to_string st e)) (VStr "success"))
                base_headers (fault_body st e),
         Normal ())).
Proof.
  intros Hrun He Hl logged.
  assert (_process st steps req (VRes r) hist
          = (t ++ logged
               :: fst (written st r (VNum 500) (VStr (fault_text st e))
                         base_headers (fault_body st e)
                         (hist ++ t ++ [logged])),
             snd (written st r (VNum 500) (VStr (fault_text st e))
                    base_headers (fault_body st e) (hist ++ t ++ [logged]))))
    as Heq.
  { unfold _process. rewrite (try_catch_thrown _ _ hist t e Hrun).
    rewrite (outer_catch_reply st r e (hist ++ t) He Hl). cbv zeta.
    fold logged. rewrite <- (app_assoc hist t [logged]).
    now destruct (written _ _ _ _ _ _ _). }
  split; [exact Heq |].
  intros Hh Hv. rewrite Heq, written_accepted; [| | lia | exact Hv].
  - now rewrite fault_text_js_or.
  - rewrite app_assoc. unfold logged. now rewrite headers_sent_emit.
Qed.

(** X16.  The outer catch reads [e.stack] before anything else: when the
    thrown value is [undefined] or [null] the catch block itself faults, no
    response is written, and the exception leaves the request listener. *)
Theorem dispatch_fault_nullish (st : state) (steps : list middleware_step)
    (req : request) (r : sink) (hist t : list event) (e : value) :
  middleware_run steps req (VRes r)
    (fun req => on_middleware_done st req (VRes r)) hist = (t, Thrown e) ->
  is_nullish e = true ->
  exists err, _process st steps req (VRes r) hist = (t, Thrown err).
Proof.
  intros Hrun He. unfold _process.
  rewrite (try_catch_thrown _ _ hist t e Hrun).
  destruct e; try discriminate; eexists; cbn; rewrite app_nil_r; reflexivity.
Qed.

(** X17.  The outer catch logs through the 'error' event: when the logger
    has no listener for it, emitting throws, so for a thrown value that is
    neither [undefined] nor [null] the 500 is never written and the
    exception leaves the request listener. *)
Theorem dispatch_fault_unheard (st : state) (steps : list middleware_step)
    (req : request) (r : sink) (hist t : list event) (e : value) :
  middleware_run steps req (VRes r)
    (fun req => on_middleware_done st req (VRes r)) hist = (t, Thrown e) ->
  is_nullish e = false ->
  error_listener st = false ->
  exists err, _process st steps req (VRes r) hist = (t, Thrown err).
Proof.
  intros Hrun He Hl. unfold _process.
  rewrite (try_catch_thrown _ _ hist t e Hrun).
  rewrite (get_prop_present e "stack" He), bind_ret.
  unfold emit. rewrite Hl. eexists. cbn. rewrite app_nil_r. reflexivity.
Qed.



(** X19.  A handler of fewer than two parameters that returns a falsy value
    (nothing, [null], [false], 0, the empty string) is answered with status
    200 "success", the three standard headers, and the string form of that
    value as the payload that is serialized.  When the head of the response
    is already out, that reply and the 500 of the catch block are both
    refused, and the exception of [res.writeHead] leaves the timer
    function. *)
Theorem falsy_result_reply (st : state) (h : fn_ref) (req : request)
    (r : sink) (v : value) (hist : list event) :
  (fn_length (fn_of st h) < 2)%nat ->
  fn_handler (fn_of st h) (_getRequestData st req) = Return v ->
  truthy v = false ->
  invoke_handler st h req (VRes r) hist
  = if headers_sent r hist
    then (announced st (VNum 200) (VStr (to_string st v))
          ++ fault_refused st headers_sent_error,
          Thrown headers_sent_error)
    else (response st r (VNum 200) (VStr "success") base_headers
            (VStr (to_string st v)), Normal ()).
Proof.
  intros Hlen Hs Hv. apply Nat.leb_gt in Hlen.
  rewrite invoke_handler_catch, Hlen, Hs.
  assert (forall hist',
            (result <- run_script no_callback (Return v) ;;
             _writeResponse st (VRes r) result VUndef) hist'
            = written st r (VNum 200) (VStr "success") base_headers
                (VStr (to_string st v)) hist') as Hbody.
  { intros hist'. cbn [run_script]. rewrite bind_ret, _writeResponse_res.
    rewrite _getHeaders_cases.
    unfold serialized, status_code, status_text, payload. rewrite Hv.
    cbn [get overrides truthy assoc loose_eq_num first_truthy is_undef].
    rewrite !andb_false_r. reflexivity. }
  destruct (headers_sent r hist) eqn:Hh.
  - rewrite (try_catch_thrown _ _ hist
               (announced st (VNum 200) (VStr (to_string st v)))
               headers_sent_error)
      by (rewrite Hbody; now apply written_sent).
    rewrite on_fault_res, faulted_sent; [reflexivity |].
    now rewrite headers_sent_app, Hh.
  - apply try_catch_normal. rewrite Hbody.
    apply written_accepted; [exact Hh | lia | reflexivity].
Qed.

(** X20.  A matched request whose handler has no auth function to pass
    (override [false], or override falsy with no global auth function) arms
    exactly one timer and writes nothing.  The request handed to the handler
    carries the stripped segments as [args]; for a GET request its body is
    the parsed query, whatever the body parsers left there, and for any
    other method the body as parsed; without full-request passthrough the
    handler sees only method, args, body and the client address. *)
Theorem matched_request_scheduled (st : state) (req : request) (res : value)
    (h : fn_ref) (a : list string) (hist : list event) :
  _checkParamsSupplied st req = Some (matched h a, st) ->
  truthy (fn_auth (fn_of st h)) = false ->
  is_false (fn_auth (fn_of st h)) = true \/ truthy (checkAuth st) = false ->
  on_middleware_done st req res hist
  = ([ESetTimeout h (with_args (parsed req) a) res], Normal ())
  /\ (fullRequest st = false ->
      _getRequestData st (with_args (parsed req) a)
      = RequestView (req_method req) a
          (if String.eqb (req_method req) "GET"
           then req_query req else req_body req)
          (req_remoteAddress req)).
Proof.
  intros Hm Hov Hno. split.
  - rewrite on_middleware_done_parsed, Hm. cbn [rd_ok matched negb rd_handler].
    unfold _checkAuthDetails. rewrite Hov.
    destruct Hno as [-> | Hg]; [| rewrite Hg; destruct (is_false _)];
      reflexivity.
  - intros Hf. unfold _getRequestData. rewrite Hf. unfold parsed.
    now destruct (String.eqb (req_method req) "GET").
Qed.

(** X23.  A handler exception whose string form is not a status text that
    Node accepts (a message with a line break, say) gets no reply: the catch
    block logs the warning and announces the 500, [res.writeHead] throws on
    the status text, and that exception leaves the timer function with
    nothing written to the response. *)
Theorem handler_exception_unanswered (st : state) (h : fn_ref)
    (req : request) (r : sink) (e : value) (hist : list event) :
  fn_handler (fn_of st h) (_getRequestData st req) = Throw e ->
  headers_sent r hist = false ->
  valid_status_text (fault_text st e) = false ->
  exists err,
    head_check (VNum 500) (VStr (fault_text st e)) = Some err
    /\ invoke_handler st h req (VRes r) hist
       = (fault_refused st e, Thrown err)
    /\ writes (fault_refused st e) = 0%nat.
Proof.
  intros Hs Hh Hv.
  destruct (faulted_invalid st r e hist Hh Hv) as (err & Hc & Hf).
  exists err. split; [exact Hc |]. split; [| reflexivity].
  now rewrite (invoke_handler_throw st h req r e hist Hs).
Qed.

(** X24.  A value returned by a handler of fewer than two parameters whose
    status code lies outside 100..999, or whose status text holds a character
    that Node refuses, is not what the client gets: [res.writeHead] throws,
    the exception is caught like a fault of the handler, and the catch block
    answers with the 500 for that exception (written when its string form
    is a status text that Node accepts). *)
Theorem refused_result_faults (st : state) (h : fn_ref) (req : request)
    (r : sink) (v : value) (n : Z) (s : string) (hist : list event) :
  (fn_length (fn_of st h) < 2)%nat ->
  fn_handler (fn_of st h) (_getRequestData st req) = Return v ->
  headers_sent r hist = false ->
  status_code st v VUndef = VNum n ->
  status_text st v VUndef = VStr s ->
  (-2147483648 <= n < 100 \/ 999 < n <= 2147483647)
  \/ valid_status_text s = false ->
  exists err,
    head_check (VNum n) (VStr s) = Some err
    /\ let line := announced st (VNum n) (serialized st v VUndef) in
       invoke_handler st h req (VRes r) hist
       = (line ++ fst (faulted st r err (hist ++ line)),
          snd (faulted st r err (hist ++ line)))
       /\ (valid_status_text (fault_text st err) = true ->
           invoke_handler st h req (VRes r) hist
           = (line ++ fault_reply st r err, Normal ())).
Proof.
  intros Hlen Hs Hh Hn Ht Hbad. apply Nat.leb_gt in Hlen.
  assert (head_check (VNum n) (VStr s) <> None) as Hc
    by (destruct Hbad; [now apply head_check_code | now apply head_check_text]).
  destruct (head_check (VNum n) (VStr s)) as [err|] eqn:Herr; [| congruence].
  exists err. split; [reflexivity |]. intros line.
  assert (invoke_handler st h req (VRes r) hist
          = (line ++ fst (faulted st r err (hist ++ line)),
             snd (faulted st r err (hist ++ line)))) as Heq.
  { rewrite invoke_handler_catch, Hlen, Hs.
    rewrite (try_catch_thrown _ _ hist line err).
    - rewrite on_fault_res. now destruct (faulted st r err (hist ++ line)).
    - cbn [run_script]. rewrite bind_ret, _writeResponse_res.
      unfold written. now rewrite Hh, Hn, Ht, Herr. }
  split; [exact Heq |].
  intros Hv. rewrite Heq, faulted_written; [reflexivity | | exact Hv].
  now rewrite headers_sent_app, Hh.
Qed.

(** X25.  With an unbounded depth the request for the root path hangs: no
    number of iterations ends the loop of the resolution, so the callback
    that the dispatcher hands to [middleware.run] neither answers the request
    nor throws, and neither does the request listener (shown for an empty
    middleware chain). *)
Theorem unbounded_depth_root_hangs (st : state) (req : request) (res : value)
    (hist : list event) :
  maxDepth st = Infinity ->
  routes_wf (routes st) ->
  req_pathname req = "/" ->
  (forall fuel, resolve_loop fuel st (not_matched "") "" [] 0 = None)
  /\ on_middleware_done st req res hist = ([], Diverges)
  /\ _process st [] req res hist = ([], Diverges).
Proof.
  intros Hm Hwf Hp.
  assert (routes st !! "" = None) as Hroot.
  { destruct (routes st !! "") as [h|] eqn:E; [| reflexivity].
    apply Hwf in E. discriminate. }
  assert (on_middleware_done st req res hist = ([], Diverges)) as Hd.
  { rewrite on_middleware_done_parsed.
    unfold _checkParamsSupplied. rewrite Hp. change (normalize "/") with "".
    now rewrite resolve_loop_never. }
  split; [intros fuel; now apply resolve_loop_never |].
  split; [exact Hd |].
  unfold _process, try_catch. cbn [middleware_run]. now rewrite Hd.
Qed.

End Pipeline.

Lemma not_found_reply_witness :
  on_middleware_done sample_state (request_for "POST" "/unknown/path")
    (VRes 0%nat) []
  = (response sample_state 0%nat (VNum 404) (VStr "No endpoint /unknown/path")
       base_headers
       (VObj [("ok", VBool false); ("code", VNum 404);
              ("error", VStr "No endpoint /unknown/path")]), Normal ()).
Proof.
  destruct (not_found_reply sample_state (request_for "POST" "/unknown/path")
              0%nat []) as [_ Hw].
  - reflexivity.
  - intros k Hk. reflexivity.
  - apply Hw; reflexivity.
Defined.


Lemma auth_firings_witness :
  let s := fn_authfn (fn_of eager_state 5%nat) VUndef VUndef in
  let t := fst (_checkAuthDetails eager_state (VFun 5%nat) (VUndef, VUndef)
                  (on_auth eager_state 4%nat (request_for "GET" "/twice")
                     (VRes 0%nat)) []) in
  (timers t + writes t <= fires s)%nat
  /\ quota 0%nat [] t
  /\ (approves s = true -> timers t = fires s /\ writes t = 0%nat).
Proof.
  apply (auth_firings eager_state 4%nat 5%nat
           (request_for "GET" "/twice") 0%nat (VFun 5%nat)
           (VUndef, VUndef) []).
  left. reflexivity.
Defined.

(** An auth function that rejects twice: the first verdict is answered with
    the 401, the second 401 is refused, and the exception of
    [res.writeHead] passes through the auth function. *)
Example double_rejection_one_reply :
  _checkAuthDetails eager_state (VFun 5%nat) (VUndef, VUndef)
    (on_auth eager_state 4%nat (request_for "GET" "/twice") (VRes 0%nat)) []
  = (response eager_state 0%nat (VNum 401) (VStr "Auth failed")
       (base_headers ++ [auth_hint]) auth_failed_body
     ++ announced eager_state (VNum 401) auth_failed_body,
     Thrown headers_sent_error).
Proof. vm_compute. reflexivity. Qed.

Lemma dispatch_fault_reply_witness :
  _process sample_state [rateLimit_step sample_state (fun _ => false)]
    (request_for "GET" "/users/get") (VRes 0%nat) []
  = ([EEmit "info" "Making 200 response" (VStr "undefined")]
     ++ EEmit "error" "Uncaught exception"
          (VObj [("e", TypeError "res.writeHead is not a function");
                 ("stack",
                  VStr (sample_stack "TypeError"
                          "res.writeHead is not a function"))])
     :: response sample_state 0%nat (VNum 500)
          (VStr "TypeError: res.writeHead is not a function") base_headers
          (VObj [("ok", VBool false); ("code", VNum 500);
                 ("error", VStr "TypeError: res.writeHead is not a function")]),
     Normal ()).
Proof.
  destruct (dispatch_fault_reply sample_state
              [rateLimit_step sample_state (fun _ => false)]
              (request_for "GET" "/users/get") 0%nat []
              [EEmit "info" "Making 200 response" (VStr "undefined")]
              (TypeError "res.writeHead is not a function")) as [_ Hw].
  - vm_compute. reflexivity.
  - reflexivity.
  - reflexivity.
  - rewrite Hw; reflexivity.
Defined.

Lemma dispatch_fault_nullish_witness :
  exists err,
    _process sample_state [fun _ _ _ => throw VNull]
      (request_for "GET" "/users/get") (VRes 0%nat) []
    = ([], Thrown err).
Proof.
  apply (dispatch_fault_nullish sample_state [fun _ _ _ => throw VNull]
           (request_for "GET" "/users/get") 0%nat [] [] VNull).
  - reflexivity.
  - reflexivity.
Defined.

Lemma dispatch_fault_unheard_witness :
  exists err,
    _process quiet_state [rateLimit_step quiet_state (fun _ => false)]
      (request_for "GET" "/ping") (VRes 0%nat) []
    = ([EEmit "info" "Making 200 response" (VStr "undefined")], Thrown err).
Proof.
  apply (dispatch_fault_unheard quiet_state
           [rateLimit_step quiet_state (fun _ => false)]
           (request_for "GET" "/ping") 0%nat []
           [EEmit "info" "Making 200 response" (VStr "undefined")]
           (TypeError "res.writeHead is not a function")).
  - vm_compute. reflexivity.
  - reflexivity.
  - reflexivity.
Defined.

Lemma falsy_result_reply_witness :
  invoke_handler quiet_state 3%nat (request_for "GET" "/ping") (VRes 0%nat) []
  = (response quiet_state 0%nat (VNum 200) (VStr "success") base_headers
       (VStr "undefined"), Normal ()).
Proof.
  apply (falsy_result_reply quiet_state 3%nat (request_for "GET" "/ping")
           0%nat VUndef []).
  - vm_compute. lia.
  - reflexivity.
  - reflexivity.
Defined.

Lemma matched_request_scheduled_witness :
  let st := addEndpoints [("users", EObject [("get", EFunction 1%nat)])]
              VUndef sample_state in
  let req := request_for "GET" "/users/get/extra" in
  on_middleware_done st req (VRes 0%nat) []
  = ([ESetTimeout 1%nat (with_args (parsed req) ["extra"]) (VRes 0%nat)],
     Normal ()).
Proof.
  intros st req.
  apply (matched_request_scheduled st req (VRes 0%nat) 1%nat ["extra"] []).
  - vm_compute. reflexivity.
  - reflexivity.
  - right. reflexivity.
Defined.

Lemma second_completion_refused_witness :
  invoke_handler eager_state 4%nat (request_for "GET" "/twice") (VRes 0%nat) []
  = (response eager_state 0%nat (VNum 200) (VStr "success") base_headers
       (VObj [("ok", VBool true)])
     ++ announced eager_state (VNum 200) (VObj [("ok", VBool true)])
     ++ fault_refused eager_state headers_sent_error,
     Thrown headers_sent_error).
Proof.
  apply (second_completion_refused eager_state 4%nat
           (request_for "GET" "/twice") 0%nat []
           VNull (VObj [("ok", VBool true)]) VUndef
           VNull (VObj [("ok", VBool true)]) VUndef (Return VUndef)).
  - vm_compute. lia.
  - reflexivity.
  - reflexivity.
  - reflexivity.
  - reflexivity.
  - reflexivity.
Defined.

Lemma handler_exception_unanswered_witness :
  exists err,
    head_check (VNum 500)
      (VStr (fault_text eager_state (VStr "first line
second line"))) = Some err
    /\ invoke_handler eager_state 6%nat (request_for "GET" "/lines")
         (VRes 0%nat) []
       = (fault_refused eager_state (VStr "first line
second line"), Thrown err)
    /\ writes (fault_refused eager_state (VStr "first line
second line")) = 0%nat.
Proof.
  apply (handler_exception_unanswered eager_state 6%nat
           (request_for "GET" "/lines") 0%nat (VStr "first line
second line") []).
  - reflexivity.
  - reflexivity.
  - reflexivity.
Defined.

Lemma refused_result_faults_witness :
  exists err,
    head_check (VNum 1001) (VStr "success") = Some err
    /\ let line := announced eager_state (VNum 1001)
                     (VObj [("ok", VBool false); ("code", VNum 1001)]) in
       invoke_handler eager_state 7%nat (request_for "GET" "/code")
         (VRes 0%nat) []
       = (line ++ fst (faulted eager_state 0%nat err ([] ++ line)),
          snd (faulted eager_state 0%nat err ([] ++ line)))
       /\ (valid_status_text (fault_text eager_state err) = true ->
           invoke_handler eager_state 7%nat (request_for "GET" "/code")
             (VRes 0%nat) []
           = (line ++ fault_reply eager_state 0%nat err, Normal ())).
Proof.
  apply (refused_result_faults eager_state 7%nat (request_for "GET" "/code")
           0%nat (VObj [("ok", VBool false); ("code", VNum 1001)])
           1001 "success" []).
  - vm_compute. lia.
  - reflexivity.
  - reflexivity.
  - reflexivity.
  - reflexivity.
  - left. lia.
Defined.

Lemma unbounded_depth_root_hangs_witness :
  let st := addEndpoints [("users", EObject [("get", EFunction 7%nat)])]
              VUndef unbounded_state in
  on_middleware_done st (request_for "GET" "/") (VRes 0%nat) []
  = ([], Diverges).
Proof.
  intros st.
  destruct (unbounded_depth_root_hangs st (request_for "GET" "/")
              (VRes 0%nat) []) as (_ & Hd & _).
  - reflexivity.
  - apply addEndpoints_routes_wf. intros k h. simpl.
    now rewrite lookup_empty.
  - reflexivity.
  - exact Hd.
Defined.
